(** * padloc core: the error taxonomy and the authenticated call pipeline

    A shallow embedding of [packages/core/src/error.ts] and of the
    [Client] class (its [call] method), with the properties of the
    specification proved about them.

    Values are taken at their declared TypeScript types: an absent
    optional argument or property is [None], [undefined] and a missing
    table key are [None], a thrown exception is an explicit completion. *)

From Stdlib Require Import Ascii.
From stdpp Require Import list gmap strings pretty functions.

Set Warnings "-register-all".

Local Open Scope Z_scope.
Local Open Scope string_scope.

(** ** The JavaScript operators the sources rely on *)

Module JS.

(** A [number] restricted to the integers and to the three values whose
    rendering does not start with a digit or a sign followed by digits.
    [-0] is identified with [0]: both are falsy and both render as "0". *)
Inductive number : Type :=
| Int (z : Z)
| NaN
| Infinity (negative : bool).

#[export] Instance number_eq_dec : EqDecision number.
Proof. solve_decision. Defined.

(** ToBoolean, for the types that reach an [||] or an [if]. *)
Class Truthy (A : Type) := truthy : A → bool.

#[export] Instance truthy_bool : Truthy bool := λ b, b.

#[export] Instance truthy_string : Truthy string :=
  λ s, match s with EmptyString => false | String _ _ => true end.

#[export] Instance truthy_number : Truthy number :=
  λ n, match n with
       | Int z => negb (z =? 0)%Z
       | NaN => false
       | Infinity _ => true
       end.

(** [a || b], where either operand may be [undefined]. *)
Definition or {A} `{Truthy A} (a b : option A) : option A :=
  match a with
  | Some x => if truthy x then a else b
  | None => b
  end.

(** [a || d] where the right operand [d] is a literal, hence defined. *)
Definition or_else {A} `{Truthy A} (a : option A) (d : A) : A :=
  match a with
  | Some x => if truthy x then x else d
  | None => d
  end.

(** [o && o.f] for an object [o] that may be [undefined]: objects are
    truthy, so the result is [o.f] when [o] is there. *)
Definition and_then {A B} (o : option A) (f : A → B) : option B :=
  match o with
  | Some x => Some (f x)
  | None => None
  end.

(** [Number.prototype.toString()], as the plain decimal rendering of the
    integer. That is what JavaScript prints for the safe integers, those
    of magnitude below 2^53, which include every status of an
    XMLHttpRequest; larger numbers are printed from their shortest
    digits, from 1e21 on in exponent notation, and are not followed. *)
Definition toString (n : number) : string :=
  match n with
  | Int z => pretty z
  | NaN => "NaN"
  | Infinity false => "Infinity"
  | Infinity true => "-Infinity"
  end.

(** [s[0]]: the first character, [undefined] on the empty string. *)
Definition first_char (s : string) : option ascii :=
  match s with
  | EmptyString => None
  | String c _ => Some c
  end.

End JS.

Import JS.

(** ** error.ts *)

Inductive ErrorCode : Type :=
(* Crypto Errors *)
| INVALID_CONTAINER_DATA
| UNSUPPORTED_CONTAINER_VERSION
| INVALID_ENCRYPTION_PARAMS
| INVALID_KEY_WRAP_PARAMS
| INVALID_KEY_PARAMS
| DECRYPTION_FAILED
| ENCRYPTION_FAILED
| NOT_SUPPORTED
| PUBLIC_KEY_MISMATCH
| MISSING_ACCESS
(* Client Errors *)
| FAILED_CONNECTION
| UNEXPECTED_REDIRECT
(* Server Errors *)
| BAD_REQUEST
| INVALID_SESSION
| SESSION_EXPIRED
| DEPRECATED_API_VERSION
| INSUFFICIENT_PERMISSIONS
| RATE_LIMIT_EXCEEDED
| INVALID_CREDENTIALS
| ACCOUNT_EXISTS
| EMAIL_VERIFICATION_FAILED
| INVALID_RESPONSE
| INVALID_REQUEST
| MERGE_CONFLICT
| MAX_REQUEST_SIZE_EXCEEDED
| STORAGE_QUOTA_EXCEEDED
(* Generic Errors *)
| CLIENT_ERROR
| SERVER_ERROR
| UNKNOWN_ERROR
| ENCODING_ERROR
| NOT_FOUND
| INVALID_CSV.

#[global] Instance ErrorCode_eq_dec : EqDecision ErrorCode.
Proof. solve_decision. Defined.

(** The members of the enum, in declaration order. *)
Definition ErrorCode_members : list ErrorCode :=
  [ INVALID_CONTAINER_DATA; UNSUPPORTED_CONTAINER_VERSION;
    INVALID_ENCRYPTION_PARAMS; INVALID_KEY_WRAP_PARAMS; INVALID_KEY_PARAMS;
    DECRYPTION_FAILED; ENCRYPTION_FAILED; NOT_SUPPORTED; PUBLIC_KEY_MISMATCH;
    MISSING_ACCESS; FAILED_CONNECTION; UNEXPECTED_REDIRECT; BAD_REQUEST;
    INVALID_SESSION; SESSION_EXPIRED; DEPRECATED_API_VERSION;
    INSUFFICIENT_PERMISSIONS; RATE_LIMIT_EXCEEDED; INVALID_CREDENTIALS;
    ACCOUNT_EXISTS; EMAIL_VERIFICATION_FAILED; INVALID_RESPONSE;
    INVALID_REQUEST; MERGE_CONFLICT; MAX_REQUEST_SIZE_EXCEEDED;
    STORAGE_QUOTA_EXCEEDED; CLIENT_ERROR; SERVER_ERROR; UNKNOWN_ERROR;
    ENCODING_ERROR; NOT_FOUND; INVALID_CSV ].

(** The string each member stands for at run time. *)
Definition ErrorCode_value (code : ErrorCode) : string :=
  match code with
  | INVALID_CONTAINER_DATA => "invalid_container_data"
  | UNSUPPORTED_CONTAINER_VERSION => "unsupported_container_version"
  | INVALID_ENCRYPTION_PARAMS => "invalid_encryption_params"
  | INVALID_KEY_WRAP_PARAMS => "invalid_key_wrap_params"
  | INVALID_KEY_PARAMS => "invalid_key_params"
  | DECRYPTION_FAILED => "decryption_failed"
  | ENCRYPTION_FAILED => "encryption_failed"
  | NOT_SUPPORTED => "not_supported"
  | PUBLIC_KEY_MISMATCH => "public_key_mismatch"
  | MISSING_ACCESS => "missing_access"
  | FAILED_CONNECTION => "failed_connection"
  | UNEXPECTED_REDIRECT => "unexpected_redirect"
  | BAD_REQUEST => "bad_request"
  | INVALID_SESSION => "invalid_session"
  | SESSION_EXPIRED => "session_expired"
  | DEPRECATED_API_VERSION => "deprecated_api_version"
  | INSUFFICIENT_PERMISSIONS => "insufficient_permissions"
  | RATE_LIMIT_EXCEEDED => "rate_limit_exceeded"
  | INVALID_CREDENTIALS => "invalid_credentials"
  | ACCOUNT_EXISTS => "account_exists"
  | EMAIL_VERIFICATION_FAILED => "email_verification_failed"
  | INVALID_RESPONSE => "invalid_response"
  | INVALID_REQUEST => "invalid_request"
  | MERGE_CONFLICT => "merge_conflict"
  | MAX_REQUEST_SIZE_EXCEEDED => "max_request_size_exceeded"
  | STORAGE_QUOTA_EXCEEDED => "storage_quota_exceeded"
  | CLIENT_ERROR => "client_error"
  | SERVER_ERROR => "server_error"
  | UNKNOWN_ERROR => "unknown_error"
  | ENCODING_ERROR => "encoding_error"
  | NOT_FOUND => "not_found"
  | INVALID_CSV => "invalid_csv"
  end.

(** The member a run-time string stands for, if any. *)
Definition ErrorCode_of_value (s : string) : option ErrorCode :=
  list_find (λ code, ErrorCode_value code = s) ErrorCode_members ≫= λ p, Some p.2.

Definition messages : gmap string string :=
  <[ ErrorCode_value EMAIL_VERIFICATION_FAILED := "Email verification failed." ]> (
  <[ ErrorCode_value INVALID_CREDENTIALS := "Username or password incorrect." ]> (
  <[ ErrorCode_value ACCOUNT_EXISTS := "This account already exists." ]> ∅)).

Definition statusCodes : gmap string number :=
  <[ ErrorCode_value BAD_REQUEST := Int 400 ]> (
  <[ ErrorCode_value EMAIL_VERIFICATION_FAILED := Int 400 ]> (
  <[ ErrorCode_value INVALID_SESSION := Int 401 ]> (
  <[ ErrorCode_value SESSION_EXPIRED := Int 401 ]> (
  <[ ErrorCode_value INVALID_CREDENTIALS := Int 401 ]> (
  <[ ErrorCode_value INSUFFICIENT_PERMISSIONS := Int 403 ]> (
  <[ ErrorCode_value NOT_FOUND := Int 404 ]> (
  <[ ErrorCode_value DEPRECATED_API_VERSION := Int 406 ]> (
  <[ ErrorCode_value ACCOUNT_EXISTS := Int 409 ]> ∅)))))))).

(** The built-in [Error], of which only [message] is read. *)
Record Error : Type := mkError { Error_message : string }.

(** The [opts] argument of the constructor; every property is optional. *)
Record ErrOpts : Type := mkErrOpts {
  opts_report : option bool;
  opts_display : option bool;
  opts_status : option number;
  opts_error : option Error
}.

(** [{}], the default value of [opts]. *)
Definition no_opts : ErrOpts := mkErrOpts None None None None.

Record Err : Type := mkErr {
  code : ErrorCode;
  message : string;
  status : number;
  report : bool;
  display : bool;
  originalError : option Error
}.

(** [new Err(code, message, opts)]. *)
Definition Err_new (code : ErrorCode) (message : option string) (opts : ErrOpts) : Err :=
  {| message :=
       or_else
         (or (or message (messages !! ErrorCode_value code))
             (and_then (opts_error opts) Error_message))
         "";
     code := code;
     status :=
       or_else (or (opts_status opts) (statusCodes !! ErrorCode_value code)) (Int 500);
     report := or_else (opts_report opts) false;
     display := or_else (opts_report opts) false;
     originalError := opts_error opts |}.

Definition Err_toString (e : Err) : string :=
  ErrorCode_value (code e) +:+ ": " +:+ message e.

(** What [JSON.parse] can return. *)
Inductive json : Type :=
| JNull
| JBool (b : bool)
| JNumber (n : number)
| JString (s : string)
| JArray (items : list json)
| JObject (fields : gmap string json).

Record XMLHttpRequest : Type := mkXMLHttpRequest {
  responseText : string;
  request_status : number
}.

(** The kind the [catch] branch picks from [request.status.toString()[0]]. *)
Definition code_of_status (status : number) : ErrorCode :=
  match first_char (toString status) with
  | Some "0"%char => FAILED_CONNECTION
  | Some "3"%char => UNEXPECTED_REDIRECT
  | Some "4"%char => CLIENT_ERROR
  | _ => SERVER_ERROR
  end.

(** The [error] property of the payload, read at the type [ErrorCode] the
    source casts it to. *)
Definition payload_error (fields : gmap string json) : option ErrorCode :=
  match fields !! "error" with
  | Some (JString s) => ErrorCode_of_value s
  | _ => None
  end.

(** The [message] property of the payload, read at the type [string] the
    source casts it to; the property may be missing. *)
Definition payload_message (fields : gmap string json) : option (option string) :=
  match fields !! "message" with
  | Some (JString s) => Some (Some s)
  | None => Some None
  | Some _ => None
  end.

Section Decoder.

(** [unmarshal] of encoding.ts, which is not among the sources: it
    parses JSON text and throws on text that is not JSON ([None]). *)
Variable unmarshal : string → option json.

Definition status_opts (request : XMLHttpRequest) : ErrOpts :=
  mkErrOpts None None (Some (request_status request)) None.

(** The [catch] branch. *)
Definition errFromStatus (request : XMLHttpRequest) : Err :=
  Err_new (code_of_status (request_status request))
          (Some (responseText request)) (status_opts request).

(** [errFromRequest(request)]. The [try] block is left by an exception
    when [unmarshal] throws and when it returns [null], which cannot be
    destructured. The result is [None] for a payload that is not of the
    type [{ error: ErrorCode; message: string }] it is cast to: the
    constructor is followed on arguments of its declared types only. *)
Definition errFromRequest (request : XMLHttpRequest) : option Err :=
  match unmarshal (responseText request) with
  | None | Some JNull => Some (errFromStatus request)
  | Some (JObject fields) =>
      match payload_error fields, payload_message fields with
      | Some error, Some message =>
          Some (Err_new error message (status_opts request))
      | _, _ => None
      end
  | Some _ => None
  end.

End Decoder.

(** ** The Client class *)

(** A thrown value: an [Err], or some other [Error]. *)
Inductive exn : Type :=
| ThrownErr (e : Err)
| ThrownError (e : Error).

(** How the evaluation of an expression or an awaited promise ends. *)
Inductive completion (A : Type) : Type :=
| Normal (a : A)
| Throw (e : exn).
Arguments Normal {A} a.
Arguments Throw {A} e.

(** A reference to a [RequestProgress] object. *)
Definition ref : Type := positive.

Record ClientSettings : Type := mkClientSettings {
  customServer : bool;
  customServerUrl : string
}.

(** The [error] object of a response. Its [code] is taken at the type
    [ErrorCode] that [call] casts it to. *)
Record ResponseError : Type := mkResponseError {
  error_code : ErrorCode;
  error_message : string
}.

Section Client.

(** Opaque to the pipeline: the values carried as parameters and
    results, the device description, the authentication material a
    session attaches, the account, and whatever else the session and
    the transport keep between their invocations. *)
Context {value DeviceInfo RequestAuthentication Account Ext : Type}.

(** Modelled from the spec: transport.ts, which declares [Request],
    [Response], [RequestProgress] and [Sender], is not among the
    sources. The envelope has [method], [params] and [device], plus the
    material the session injects. *)
Record Request : Type := mkRequest {
  method : string;
  params : option (list value);
  device : DeviceInfo;
  req_auth : option RequestAuthentication
}.

(** Modelled from the spec: the response envelope has an optional
    [error], an optional [result] and the session's verification
    material. *)
Record Response : Type := mkResponse {
  res_error : option ResponseError;
  res_result : option value;
  res_auth : option RequestAuthentication
}.

(** Modelled from the spec: the progress record has [loaded], [total]
    and a terminal [error]. *)
Record RequestProgress : Type := mkRequestProgress {
  loaded : number;
  total : number;
  error : option exn
}.

(** The objects the client shares with its collaborators and callers:
    the progress records, reached by reference, and the collaborators'
    own state. *)
Record World : Type := mkWorld {
  store : ref → RequestProgress;
  ext : Ext
}.

(** Modelled from the spec: session.ts is not among the sources.
    [authenticate(req)] attaches material to the envelope in place or
    rejects; the envelope it leaves is its result here.
    [verify(res)] resolves to a boolean or rejects. A session is handed
    the envelope only, never a progress record. *)
Record Session : Type := mkSession {
  authenticate : Request → Ext → completion Request * Ext;
  verify : Response → Ext → completion bool * Ext
}.

(** Modelled from the spec: [send(req, progress)] resolves to the
    response envelope or rejects, and may update progress records. *)
Record Sender : Type := mkSender {
  send : Request → option ref → World → completion Response * World
}.

Record ClientState : Type := mkClientState {
  session : option Session;
  account : option Account;
  state_device : DeviceInfo;
  settings : ClientSettings
}.

Record Client : Type := mkClient {
  state : ClientState;
  sender : Sender
}.

(** What is observed of one run: every invocation of a collaborator and
    how the promise it returned settled. *)
Inductive Event : Type :=
| AuthenticateInvoked (req : Request)
| AuthenticateSettled (r : completion Request)
| SendInvoked (req : Request) (progress : option ref)
| SendSettled (r : completion Response)
| VerifyInvoked (res : Response)
| VerifySettled (r : completion bool).

Record Run : Type := mkRun {
  world : World;
  log : list Event
}.

(** An [async] body: it runs from a state to a completion and a state. *)
Definition Async (A : Type) : Type := Run → completion A * Run.

Definition resolve {A} (a : A) : Async A := λ r, (Normal a, r).

Definition throw {A} (e : exn) : Async A := λ r, (Throw e, r).

Definition bind {A B} (m : Async A) (k : A → Async B) : Async B :=
  λ r, match m r with
       | (Normal a, r') => k a r'
       | (Throw e, r') => (Throw e, r')
       end.

(** [try { m } catch (e) { handler }]. *)
Definition try_catch {A} (m : Async A) (handler : exn → Async A) : Async A :=
  λ r, match m r with
       | (Normal a, r') => (Normal a, r')
       | (Throw e, r') => handler e r'
       end.

(** [await f(...)]: the invocation is logged, the collaborator runs on
    the shared objects, and the way its promise settles is logged. *)
Definition await {A} (invoked : Event) (f : World → completion A * World)
    (settled : completion A → Event) : Async A :=
  λ r, let '(c, w) := f (world r) in
       (c, mkRun w (log r ++ [invoked; settled c])).

(** A session method runs on the collaborators' state. *)
Definition on_ext {A} (f : Ext → completion A * Ext) (w : World) : completion A * World :=
  let '(c, x) := f (ext w) in (c, mkWorld (store w) x).

Definition set_error (e : exn) (pr : RequestProgress) : RequestProgress :=
  mkRequestProgress (loaded pr) (total pr) (Some e).

(** [if (progress) { progress.error = e; }], on the shared objects. *)
Definition write_error (progress : option ref) (e : exn) (w : World) : World :=
  match progress with
  | Some p => mkWorld (alter (set_error e) p (store w)) (ext w)
  | None => w
  end.

Definition set_progress_error (progress : option ref) (e : exn) : Async unit :=
  λ r, (Normal tt, mkRun (write_error progress e (world r)) (log r)).

#[local] Instance Async_ret : MRet Async := @resolve.
#[local] Instance Async_bind : MBind Async := λ A B k m, bind m k.

(** [const req = { method, params, device: this.state.device }]. *)
Definition envelope (client : Client) (method : string) (params : option (list value)) : Request :=
  mkRequest method params (state_device (state client)) None.

(** [await session.authenticate(req)]. *)
Definition await_authenticate (s : Session) (req : Request) : Async Request :=
  await (AuthenticateInvoked req) (on_ext (authenticate s req)) AuthenticateSettled.

(** [await this.sender.send(req, progress)]. *)
Definition await_send (client : Client) (req : Request) (progress : option ref) : Async Response :=
  await (SendInvoked req progress) (send (sender client) req progress) SendSettled.

(** [await session.verify(res)]. *)
Definition await_verify (s : Session) (res : Response) : Async bool :=
  await (VerifyInvoked res) (on_ext (verify s res)) VerifySettled.

(** [async call(method, params, progress)]. *)
Definition call (client : Client) (method : string) (params : option (list value))
    (progress : option ref) : Async Response :=
  let session := session (state client) in
  let req := envelope client method params in
  req ← match session with
        | Some s => await_authenticate s req
        | None => mret req
        end;
  res ← try_catch (await_send client req progress)
                  (λ e, set_progress_error progress e;; throw e);
  match res_error res with
  | Some e =>
      let err := Err_new (error_code e) (Some (error_message e)) no_opts in
      set_progress_error progress (ThrownErr err);;
      throw (ThrownErr err)
  | None =>
      (* [session && !(await session.verify(res))] *)
      rejected ← match session with
                 | Some s => verified ← await_verify s res; mret (negb verified)
                 | None => mret false
                 end;
      if (rejected : bool) then
        let err := Err_new INVALID_RESPONSE None no_opts in
        set_progress_error progress (ThrownErr err);;
        throw (ThrownErr err)
      else mret res
  end.

(** One call, observed from a world with an empty log. *)
Definition run (client : Client) (method : string) (params : option (list value))
    (progress : option ref) (w : World) : completion Response * Run :=
  call client method params progress (mkRun w []).

(** The error raised for a response that carries a structured error. *)
Definition response_err (e : ResponseError) : Err :=
  Err_new (error_code e) (Some (error_message e)) no_opts.

(** The error raised for a response that the session does not verify. *)
Definition invalid_response : Err := Err_new INVALID_RESPONSE None no_opts.

(** The first step of a call that gets as far as the transport: the
    envelope handed to [send], the world [send] runs in, and the events
    so far. *)
Inductive ready (client : Client) (req0 : Request) (w : World) :
    Request → World → list Event → Prop :=
| ready_no_session :
    session (state client) = None →
    ready client req0 w req0 w []
| ready_authenticated s req1 x :
    session (state client) = Some s →
    authenticate s req0 (ext w) = (Normal req1, x) →
    ready client req0 w req1 (mkWorld (store w) x)
      [AuthenticateInvoked req0; AuthenticateSettled (Normal req1)].

(** The ways a call can go, each with its completion, the world it
    leaves and the events observed. *)
Inductive call_run (client : Client) (method : string) (params : option (list value))
    (progress : option ref) (w : World) : completion Response → World → list Event → Prop :=
| run_authenticate_rejects s e x :
    session (state client) = Some s →
    authenticate s (envelope client method params) (ext w) = (Throw e, x) →
    call_run client method params progress w
      (Throw e) (mkWorld (store w) x)
      [AuthenticateInvoked (envelope client method params); AuthenticateSettled (Throw e)]
| run_send_rejects req1 w1 events e w2 :
    ready client (envelope client method params) w req1 w1 events →
    send (sender client) req1 progress w1 = (Throw e, w2) →
    call_run client method params progress w
      (Throw e) (write_error progress e w2)
      (events ++ [SendInvoked req1 progress; SendSettled (Throw e)])
| run_error_response req1 w1 events res w2 re :
    ready client (envelope client method params) w req1 w1 events →
    send (sender client) req1 progress w1 = (Normal res, w2) →
    res_error res = Some re →
    call_run client method params progress w
      (Throw (ThrownErr (response_err re)))
      (write_error progress (ThrownErr (response_err re)) w2)
      (events ++ [SendInvoked req1 progress; SendSettled (Normal res)])
| run_no_session req1 w1 events res w2 :
    ready client (envelope client method params) w req1 w1 events →
    send (sender client) req1 progress w1 = (Normal res, w2) →
    res_error res = None →
    session (state client) = None →
    call_run client method params progress w
      (Normal res) w2
      (events ++ [SendInvoked req1 progress; SendSettled (Normal res)])
| run_verify_rejects req1 w1 events res w2 s e x :
    ready client (envelope client method params) w req1 w1 events →
    send (sender client) req1 progress w1 = (Normal res, w2) →
    res_error res = None →
    session (state client) = Some s →
    verify s res (ext w2) = (Throw e, x) →
    call_run client method params progress w
      (Throw e) (mkWorld (store w2) x)
      (events ++ [SendInvoked req1 progress; SendSettled (Normal res);
                  VerifyInvoked res; VerifySettled (Throw e)])
| run_not_verified req1 w1 events res w2 s x :
    ready client (envelope client method params) w req1 w1 events →
    send (sender client) req1 progress w1 = (Normal res, w2) →
    res_error res = None →
    session (state client) = Some s →
    verify s res (ext w2) = (Normal false, x) →
    call_run client method params progress w
      (Throw (ThrownErr invalid_response))
      (write_error progress (ThrownErr invalid_response) (mkWorld (store w2) x))
      (events ++ [SendInvoked req1 progress; SendSettled (Normal res);
                  VerifyInvoked res; VerifySettled (Normal false)])
| run_verified req1 w1 events res w2 s x :
    ready client (envelope client method params) w req1 w1 events →
    send (sender client) req1 progress w1 = (Normal res, w2) →
    res_error res = None →
    session (state client) = Some s →
    verify s res (ext w2) = (Normal true, x) →
    call_run client method params progress w
      (Normal res) (mkWorld (store w2) x)
      (events ++ [SendInvoked req1 progress; SendSettled (Normal res);
                  VerifyInvoked res; VerifySettled (Normal true)]).

(** Every event that [Q] holds of comes after an event that [P] holds of. *)
Definition precedes (P Q : Event → Prop) (events : list Event) : Prop :=
  ∀ i e, events !! i = Some e → Q e →
         ∃ j e', (j < i)%nat ∧ events !! j = Some e' ∧ P e'.

(** The transport writes [loaded] and [total] only: it leaves the
    [error] of every progress record as it finds it. *)
Definition keeps_errors (sender : Sender) : Prop :=
  ∀ req progress w p,
    error (store (send sender req progress w).2 p) = error (store w p).

End Client.

Arguments Request : clear implicits.
Arguments Response : clear implicits.
Arguments RequestProgress : clear implicits.
Arguments World : clear implicits.
Arguments Session : clear implicits.
Arguments Sender : clear implicits.
Arguments ClientState : clear implicits.
Arguments Client : clear implicits.
Arguments Event : clear implicits.
Arguments Run : clear implicits.
Arguments Async : clear implicits.

(** ** The attachment operations of the Client class *)

Section Attachments.

(** The values carried by these operations are JSON values. *)
Context {DeviceInfo RequestAuthentication Account Ext AttachmentData : Type}.

(** Modelled from the spec: attachment.ts is not among the sources. Of
    an attachment the client reads and writes [id], [vault],
    [uploadProgress] and [downloadProgress], at their declared types;
    the rest of the object is opaque. *)
Record Attachment : Type := mkAttachment {
  att_id : string;
  att_vault : string;
  uploadProgress : option ref;
  downloadProgress : option ref;
  att_data : AttachmentData
}.

(** Modelled from the spec: [att.serialize()] gives a plain value or
    rejects, and leaves the attachment as it is. *)
Variable serialize : Attachment → Ext → completion json * Ext.

(** Modelled from the spec: [att.deserialize(raw)] fills the attachment
    from a plain value and resolves to the attachment itself, or
    rejects; the attachment it leaves is given with the completion. *)
Variable deserialize : Attachment → option json → Ext → (completion unit * Attachment) * Ext.

(** Modelled from the spec: a new progress record has no error; what it
    shows for [loaded] and [total] is not fixed by the sources. *)
Variables initial_loaded initial_total : number.

Definition new_RequestProgress : RequestProgress :=
  mkRequestProgress initial_loaded initial_total None.

(** What the engine throws when a property of [undefined] or [null] is
    read. *)
Variable TypeError : Error.

(** The result of an operation on an attachment: how it completed, the
    attachment as the operation leaves it (the object it resolves to,
    when it resolves), and the run. *)
Definition Operation : Type :=
  (completion unit * Attachment) * Run json DeviceInfo RequestAuthentication Ext.

(** [new RequestProgress()], the new record being the one at [p]. *)
Definition allocate (p : ref) (w : World Ext) : World Ext :=
  mkWorld (<[p := new_RequestProgress]> (store w)) (ext w).

(** [{ id: att.id, vault: att.vault }]. *)
Definition attachment_key (att : Attachment) : json :=
  JObject (<[ "id" := JString (att_id att) ]>
           (<[ "vault" := JString (att_vault att) ]> ∅)).

(** [async createAttachment(att)]; [p] is the reference of the record
    that [new RequestProgress()] creates. The result is [None] when
    [result.id] is not a string, the declared type of [att.id]. *)
Definition createAttachment
    (client : Client json DeviceInfo RequestAuthentication Account Ext)
    (att : Attachment) (p : ref) (w : World Ext) : option Operation :=
  (* att.uploadProgress = new RequestProgress(); *)
  let att :=
    mkAttachment (att_id att) (att_vault att) (Some p) (downloadProgress att)
                 (att_data att) in
  let w := allocate p w in
  (* await att.serialize() *)
  match on_ext (serialize att) w with
  | (Throw e, w) => Some ((Throw e, att), mkRun w [])
  | (Normal raw, w) =>
      match run client "createAttachment" (Some [raw]) (uploadProgress att) w with
      | (Throw e, r) => Some ((Throw e, att), r)
      | (Normal res, r) =>
          (* const { result } = res; att.id = result.id; *)
          match res_result res with
          | None | Some JNull => Some ((Throw (ThrownError TypeError), att), r)
          | Some (JObject fields) =>
              match fields !! "id" with
              | Some (JString id) =>
                  Some ((Normal tt,
                         mkAttachment id (att_vault att) (uploadProgress att)
                                      (downloadProgress att) (att_data att)),
                        r)
              | _ => None
              end
          | Some _ => None
          end
      end
  end.

(** [async getAttachment(att)]; [p] is the reference of the record that
    [new RequestProgress()] creates. *)
Definition getAttachment
    (client : Client json DeviceInfo RequestAuthentication Account Ext)
    (att : Attachment) (p : ref) (w : World Ext) : Operation :=
  (* att.downloadProgress = new RequestProgress(); *)
  let att :=
    mkAttachment (att_id att) (att_vault att) (uploadProgress att) (Some p)
                 (att_data att) in
  let w := allocate p w in
  match run client "getAttachment" (Some [attachment_key att]) (downloadProgress att) w with
  | (Throw e, r) => ((Throw e, att), r)
  | (Normal res, r) =>
      (* return att.deserialize(res.result); *)
      let '(done, x) := deserialize att (res_result res) (ext (world r)) in
      (done, mkRun (mkWorld (store (world r)) x) (log r))
  end.

(** [async deleteAttachment(att)]. *)
Definition deleteAttachment
    (client : Client json DeviceInfo RequestAuthentication Account Ext)
    (att : Attachment) (w : World Ext) : Operation :=
  match run client "deleteAttachment" (Some [attachment_key att]) None w with
  | (Throw e, r) => ((Throw e, att), r)
  | (Normal _, r) => ((Normal tt, att), r)
  end.

End Attachments.

Arguments Attachment : clear implicits.

(** ** The construction rule in the words of the specification *)

(** "explicit message argument, else the kind's default message, else the
    cause's message, else empty string". *)
Definition message_by_priority (code : ErrorCode) (message : option string)
    (opts : ErrOpts) : string :=
  match message with
  | Some m => m
  | None =>
      match messages !! ErrorCode_value code with
      | Some d => d
      | None =>
          match opts_error opts with
          | Some cause => Error_message cause
          | None => ""
          end
      end
  end.

(** "explicit override, else the kind's default status, else 500". *)
Definition status_by_priority (code : ErrorCode) (opts : ErrOpts) : number :=
  match opts_status opts with
  | Some s => s
  | None =>
      match statusCodes !! ErrorCode_value code with
      | Some d => d
      | None => Int 500
      end
  end.

(** An argument counts as given when it is there and truthy. *)
Definition given {A} `{Truthy A} (a : option A) : option A :=
  match a with
  | Some x => if truthy x then Some x else None
  | None => None
  end.

Definition with_status (opts : ErrOpts) (s : option number) : ErrOpts :=
  mkErrOpts (opts_report opts) (opts_display opts) s (opts_error opts).

Definition with_display (opts : ErrOpts) (d : option bool) : ErrOpts :=
  mkErrOpts (opts_report opts) d (opts_status opts) (opts_error opts).

(** ** Sample collaborators and inputs, for the examples *)

(** The text of a structured error payload. *)
Definition quoted (s : string) : string :=
  String (ascii_of_nat 34) s +:+ String (ascii_of_nat 34) "".

Definition payload_text (error message : string) : string :=
  "{" +:+ quoted "error" +:+ ":" +:+ quoted error +:+ ","
      +:+ quoted "message" +:+ ":" +:+ quoted message +:+ "}".

(** A parser that knows three bodies and rejects every other text, as
    [unmarshal] rejects text that is not JSON. *)
Definition sample_unmarshal (text : string) : option json :=
  if decide (text = payload_text "session_expired" "x") then
    Some (JObject (<[ "error" := JString "session_expired" ]>
                   (<[ "message" := JString "x" ]> ∅)))
  else if decide (text = payload_text "account_exists" "") then
    Some (JObject (<[ "error" := JString "account_exists" ]>
                   (<[ "message" := JString "" ]> ∅)))
  else if decide (text = "null") then Some JNull
  else None.

(** A session that attaches a fixed proof to the envelope and answers
    every verification with [verdict]; it counts its invocations. *)
Definition sample_session (verdict : bool) : Session string string string nat :=
  mkSession
    (λ req n, (Normal (mkRequest (method req) (params req) (device req) (Some "proof")), S n))
    (λ res n, (Normal verdict, S n)).

(** A transport that settles every exchange with [c], after it has
    reported ten bytes of ten on the progress record it was given. *)
Definition sample_sender (c : completion (Response string string)) : Sender string string string nat :=
  mkSender
    (λ req progress w,
       (c,
        mkWorld
          match progress with
          | Some p => alter (λ pr, mkRequestProgress (Int 10) (Int 10) (error pr)) p (store w)
          | None => store w
          end
          (S (ext w)))).

Definition sample_client (session : option (Session string string string nat))
    (sender : Sender string string string nat) : Client string string string unit nat :=
  mkClient (mkClientState session None "device" (mkClientSettings false "")) sender.

(** A world whose progress records are all fresh. *)
Definition sample_world : World nat :=
  mkWorld (λ _, mkRequestProgress (Int 0) (Int 0) None) 0%nat.

Definition sample_response : Response string string :=
  mkResponse None (Some "result") (Some "signature").

Definition sample_error_response : Response string string :=
  mkResponse (Some (mkResponseError NOT_FOUND "no such vault")) None None.

(** Whether the character [c] occurs in [s]. *)
Fixpoint occurs (c : ascii) (s : string) : bool :=
  match s with
  | EmptyString => false
  | String c' s' => if decide (c = c') then true else occurs c s'
  end.

(** The invocations among the events of a run. *)
Definition is_authenticate {value DeviceInfo RequestAuthentication}
    (e : Event value DeviceInfo RequestAuthentication) : bool :=
  match e with AuthenticateInvoked _ => true | _ => false end.

Definition is_send {value DeviceInfo RequestAuthentication}
    (e : Event value DeviceInfo RequestAuthentication) : bool :=
  match e with SendInvoked _ _ => true | _ => false end.

Definition is_verify {value DeviceInfo RequestAuthentication}
    (e : Event value DeviceInfo RequestAuthentication) : bool :=
  match e with VerifyInvoked _ => true | _ => false end.

Definition invocations {value DeviceInfo RequestAuthentication}
    (which : Event value DeviceInfo RequestAuthentication → bool)
    (events : list (Event value DeviceInfo RequestAuthentication)) : nat :=
  length (filter (λ e, which e = true) events).

(** The transport writes no progress record but the one it is given. *)
Definition writes_only_given {value DeviceInfo RequestAuthentication Ext}
    (sender : Sender value DeviceInfo RequestAuthentication Ext) : Prop :=
  ∀ req pg w q, pg ≠ Some q → store (send sender req pg w).2 q = store w q.

(** The call failed in the pipeline: the transport rejected, the
    response carried a structured error, or [verify] resolved to [false]. *)
Definition pipeline_failure {value DeviceInfo RequestAuthentication}
    (events : list (Event value DeviceInfo RequestAuthentication)) : Prop :=
  (∃ e, SendSettled (Throw e) ∈ events)
  ∨ (∃ res re, SendSettled (Normal res) ∈ events ∧ res_error res = Some re)
  ∨ VerifySettled (Normal false) ∈ events.

(** Sample collaborators for the attachment operations. *)
Definition attachment_session (verdict : bool) : Session json string string nat :=
  mkSession
    (λ req n, (Normal (mkRequest (method req) (params req) (device req) (Some "proof")), S n))
    (λ res n, (Normal verdict, S n)).

Definition attachment_sender (c : completion (Response json string)) : Sender json string string nat :=
  mkSender
    (λ req progress w,
       (c,
        mkWorld
          match progress with
          | Some p => alter (λ pr, mkRequestProgress (Int 10) (Int 10) (error pr)) p (store w)
          | None => store w
          end
          (S (ext w)))).

Definition attachment_client (session : option (Session json string string nat))
    (sender : Sender json string string nat) : Client json string string unit nat :=
  mkClient (mkClientState session None "device" (mkClientSettings false "")) sender.

Definition sample_attachment : Attachment unit :=
  mkAttachment "" "vault-1" None None tt.

Definition sample_serialize (att : Attachment unit) (n : nat) : completion json * nat :=
  (Normal (JObject (<[ "vault" := JString (att_vault att) ]> ∅)), S n).

Definition sample_deserialize (att : Attachment unit) (raw : option json) (n : nat) :
    (completion unit * Attachment unit) * nat :=
  match raw with
  | Some (JObject fields) => ((Normal tt, att), S n)
  | _ => ((Throw (ThrownErr (Err_new ENCODING_ERROR None no_opts)), att), S n)
  end.

Definition sample_TypeError : Error := mkError "Cannot read properties of undefined".

(** A session whose [authenticate] rejects. *)
Definition sample_rejecting_session : Session string string string nat :=
  mkSession
    (λ req n, (Throw (ThrownErr (Err_new INVALID_SESSION None no_opts)), S n))
    (λ res n, (Normal true, S n)).

Definition attachment_response : Response json string :=
  mkResponse None (Some (JObject (<[ "id" := JString "att-1" ]> ∅))) (Some "signature").

Definition attachment_empty_response : Response json string :=
  mkResponse None None (Some "signature").

Definition attachment_error_response : Response json string :=
  mkResponse (Some (mkResponseError STORAGE_QUOTA_EXCEEDED "quota")) None None.

(** * Properties *)

(** ** The default tables *)

Lemma messages_lookup code :
  messages !! ErrorCode_value code =
  match code with
  | EMAIL_VERIFICATION_FAILED => Some "Email verification failed."
  | INVALID_CREDENTIALS => Some "Username or password incorrect."
  | ACCOUNT_EXISTS => Some "This account already exists."
  | _ => None
  end.
Proof. by destruct code; vm_compute. Qed.

Lemma statusCodes_lookup code :
  statusCodes !! ErrorCode_value code =
  match code with
  | BAD_REQUEST | EMAIL_VERIFICATION_FAILED => Some (Int 400)
  | INVALID_SESSION | SESSION_EXPIRED | INVALID_CREDENTIALS => Some (Int 401)
  | INSUFFICIENT_PERMISSIONS => Some (Int 403)
  | NOT_FOUND => Some (Int 404)
  | DEPRECATED_API_VERSION => Some (Int 406)
  | ACCOUNT_EXISTS => Some (Int 409)
  | _ => None
  end.
Proof. by destruct code; vm_compute. Qed.

Lemma messages_truthy code d :
  messages !! ErrorCode_value code = Some d → truthy d = true.
Proof. rewrite messages_lookup. by destruct code; intros [= <-]. Qed.

Lemma statusCodes_truthy code d :
  statusCodes !! ErrorCode_value code = Some d → truthy d = true.
Proof. rewrite statusCodes_lookup. by destruct code; intros [= <-]. Qed.

Lemma ErrorCode_of_value_value code :
  ErrorCode_of_value (ErrorCode_value code) = Some code.
Proof. by destruct code; vm_compute. Qed.

(** ** The [||] chains of the constructor *)

(** The message of a constructed error: the first of the argument, the
    table default and the cause's message that is given, else "". *)
Lemma Err_new_message code msg opts :
  message (Err_new code msg opts) =
  match given msg with
  | Some m => m
  | None =>
      match messages !! ErrorCode_value code with
      | Some d => d
      | None =>
          match opts_error opts with
          | Some cause => Error_message cause
          | None => ""
          end
      end
  end.
Proof.
  cbn [message Err_new]. unfold or_else, or, given, and_then.
  destruct msg as [m|]; [destruct (truthy m) eqn:Em; rewrite ?Em; [done|]|];
    (destruct (messages !! _) as [d|] eqn:Ed;
     [by rewrite !(messages_truthy code d Ed)|]);
    (destruct (opts_error opts) as [[cause]|]; [|done]);
    simpl; by destruct cause.
Qed.

(** The status of a constructed error. *)
Lemma Err_new_status code msg opts :
  status (Err_new code msg opts) =
  match given (opts_status opts) with
  | Some s => s
  | None =>
      match statusCodes !! ErrorCode_value code with
      | Some d => d
      | None => Int 500
      end
  end.
Proof.
  cbn [status Err_new]. unfold or_else, or, given.
  destruct (opts_status opts) as [s|];
    [destruct (truthy s) eqn:Es; rewrite ?Es; [done|]|];
    (destruct (statusCodes !! _) as [d|] eqn:Ed; [|done]);
    by rewrite !(statusCodes_truthy code d Ed).
Qed.

(** ** The construction rule *)

(** C5, as stated, fails: an explicit empty message does not win over the
    table default of [ACCOUNT_EXISTS], and an explicit status [0] does not
    win over the 500 fallback. *)
Lemma Err_priority_counterexample :
  message (Err_new ACCOUNT_EXISTS (Some "") no_opts)
    ≠ message_by_priority ACCOUNT_EXISTS (Some "") no_opts
  ∧ status (Err_new UNKNOWN_ERROR None (with_status no_opts (Some (Int 0))))
    ≠ status_by_priority UNKNOWN_ERROR (with_status no_opts (Some (Int 0))).
Proof. split; vm_compute; discriminate. Qed.

(** C5, amended: for every [ErrorCode] and all constructor arguments, the
    message is the explicit argument when that is a non-empty string,
    else the kind's table default, else the cause's message, else "";
    the status is the explicit override when that is truthy (neither 0
    nor NaN), else the kind's table default, else 500. In particular,
    with no explicit message and no cause the message is the table
    default or "", and with no explicit status the status is the table
    default or 500. *)
Theorem Err_new_resolution code msg opts :
  message (Err_new code msg opts) = message_by_priority code (given msg) opts
  ∧ status (Err_new code msg opts)
    = status_by_priority code (with_status opts (given (opts_status opts)))
  ∧ (∀ report display status,
       message (Err_new code None (mkErrOpts report display status None))
       = default "" (messages !! ErrorCode_value code))
  ∧ (∀ report display cause,
       status (Err_new code msg (mkErrOpts report display None cause))
       = default (Int 500) (statusCodes !! ErrorCode_value code)).
Proof.
  split_and!.
  - rewrite Err_new_message. unfold message_by_priority.
    by destruct (given msg).
  - rewrite Err_new_status. unfold status_by_priority. simpl.
    by destruct (given (opts_status opts)).
  - intros. rewrite Err_new_message. simpl.
    by destruct (messages !! _).
  - intros. rewrite Err_new_status. simpl.
    by destruct (statusCodes !! _).
Qed.

(** C7, as stated, fails: an explicit status [0] is not what [.status]
    returns. *)
Lemma Err_status_override_counterexample :
  status (Err_new UNKNOWN_ERROR (Some "teapot") (with_status no_opts (Some (Int 0))))
    ≠ Int 0.
Proof. vm_compute. discriminate. Qed.

(** C7, amended: for every kind, message and explicitly supplied status
    that is truthy (neither 0 nor NaN), [.status] of the constructed
    error is the supplied status, whatever the tables hold. *)
Theorem Err_status_override code msg report display cause (s : number) :
  truthy s = true →
  status (Err_new code msg (mkErrOpts report display (Some s) cause)) = s.
Proof.
  intros Hs. rewrite Err_new_status. simpl. by rewrite Hs.
Qed.

Lemma Err_status_override_418 :
  truthy (Int 418) = true
  ∧ status (Err_new ACCOUNT_EXISTS (Some "teapot")
              (mkErrOpts None None (Some (Int 418)) None)) = Int 418.
Proof. split; [reflexivity|apply Err_status_override; reflexivity]. Defined.

(** C8: [display] equals [report], both are [opts.report || false], and
    [opts.display] has no effect on the constructed value. *)
Theorem Err_display_is_report code msg opts :
  display (Err_new code msg opts) = report (Err_new code msg opts)
  ∧ report (Err_new code msg opts) = default false (opts_report opts)
  ∧ ∀ d, Err_new code msg (with_display opts d) = Err_new code msg opts.
Proof.
  split_and!; [done| |done].
  simpl. by destruct (opts_report opts) as [[]|].
Qed.

(** C9: falsy overrides count as absent. A status of [0] gives the value
    built without a status, whose status is the table default or 500 and
    never 0; an empty message gives the value built without a message,
    whose message is the table default, else the cause's message. *)
Theorem Err_falsy_overrides_absent code msg opts :
  Err_new code msg (with_status opts (Some (Int 0)))
    = Err_new code msg (with_status opts None)
  ∧ status (Err_new code msg (with_status opts (Some (Int 0))))
    = default (Int 500) (statusCodes !! ErrorCode_value code)
  ∧ status (Err_new code msg (with_status opts (Some (Int 0)))) ≠ Int 0
  ∧ Err_new code (Some "") opts = Err_new code None opts
  ∧ message (Err_new code (Some "") opts)
    = match messages !! ErrorCode_value code with
      | Some d => d
      | None => default "" (Error_message <$> opts_error opts)
      end.
Proof.
  assert (status (Err_new code msg (with_status opts (Some (Int 0))))
          = default (Int 500) (statusCodes !! ErrorCode_value code)) as Hs.
  { rewrite Err_new_status. simpl. by destruct (statusCodes !! _). }
  split_and!; [done|done| |done|].
  - rewrite Hs, statusCodes_lookup. by destruct code.
  - rewrite Err_new_message. simpl.
    destruct (messages !! _); [done|]. by destruct (opts_error opts).
Qed.

(** ** The decoder *)

Lemma first_char_pretty_N_go (k : nat) :
  ∀ (d x : N) (s : string),
    (1 ≤ d ≤ 9)%N →
    (d * 10 ^ N.of_nat k ≤ x < (d + 1) * 10 ^ N.of_nat k)%N →
    first_char (pretty_N_go x s) = Some (pretty_N_char d).
Proof.
  induction k as [|k IH]; intros d x s Hd Hx.
  - change (10 ^ N.of_nat 0)%N with 1%N in Hx.
    assert (x = d) as -> by lia.
    rewrite pretty_N_go_step by lia.
    rewrite N.div_small, N.mod_small by lia.
    by rewrite pretty_N_go_0.
  - rewrite Nat2N.inj_succ, N.pow_succ_r' in Hx.
    assert (0 < 10 ^ N.of_nat k)%N by (apply N.neq_0_lt_0, N.pow_nonzero; lia).
    rewrite pretty_N_go_step by nia.
    apply IH; [done|]. split.
    + apply N.div_le_lower_bound; lia.
    + apply N.Div0.div_lt_upper_bound; lia.
Qed.

Lemma leading_digit_exists (x : N) :
  (0 < x)%N →
  ∃ (d : N) (k : nat),
    (1 ≤ d ≤ 9)%N ∧ (d * 10 ^ N.of_nat k ≤ x < (d + 1) * 10 ^ N.of_nat k)%N.
Proof.
  induction (N.lt_wf_0 x) as [x _ IH]; intros Hx.
  destruct (decide (x < 10)%N) as [Hlt|Hge].
  - exists x, 0%nat. change (10 ^ N.of_nat 0)%N with 1%N. lia.
  - destruct (IH (x `div` 10)%N) as (d & k & Hd & Hk).
    + apply N.div_lt; lia.
    + apply N.div_str_pos; lia.
    + exists d, (S k). split; [done|].
      rewrite Nat2N.inj_succ, N.pow_succ_r'.
      pose proof (N.div_mod x 10 ltac:(lia)) as Hdiv.
      pose proof (N.mod_lt x 10 ltac:(lia)) as Hmod.
      generalize dependent (10 ^ N.of_nat k)%N.
      generalize dependent (x `div` 10)%N.
      generalize dependent (x `mod` 10)%N.
      intros r Hr q Hq p Hp. nia.
Qed.

Lemma toString_Int_pos (x : N) :
  (0 < x)%N → toString (Int (Z.of_N x)) = pretty_N_go x "".
Proof.
  intros Hx. destruct x as [|p]; [lia|]. simpl.
  unfold pretty, pretty_Z, pretty, pretty_positive, pretty, pretty_N.
  by rewrite decide_False.
Qed.

(** The first character of a positive status is its leading decimal digit. *)
Lemma first_char_toString_Int (d : N) (k : nat) (z : Z) :
  (1 ≤ d ≤ 9)%N →
  Z.of_N d * 10 ^ Z.of_nat k ≤ z < (Z.of_N d + 1) * 10 ^ Z.of_nat k →
  first_char (toString (Int z)) = Some (pretty_N_char d).
Proof.
  intros Hd Hz.
  assert (0 < 10 ^ Z.of_nat k) by (apply Z.pow_pos_nonneg; lia).
  assert (0 < z) by nia.
  rewrite <- (Z2N.id z) by lia.
  rewrite toString_Int_pos by lia.
  apply (first_char_pretty_N_go k); [done|].
  rewrite <- (N2Z.id (10 ^ N.of_nat k)), N2Z.inj_pow, nat_N_Z.
  change (Z.of_N 10) with 10.
  generalize dependent (10 ^ Z.of_nat k). intros p Hz Hp.
  split.
  - apply N2Z.inj_le. rewrite N2Z.inj_mul, !Z2N.id by lia. lia.
  - apply N2Z.inj_lt. rewrite N2Z.inj_mul, N2Z.inj_add, !Z2N.id by lia. lia.
Qed.

(** The kind picked for a positive status, by its leading decimal digit. *)
Lemma code_of_status_leading (d : N) (k : nat) (z : Z) :
  (1 ≤ d ≤ 9)%N →
  Z.of_N d * 10 ^ Z.of_nat k ≤ z < (Z.of_N d + 1) * 10 ^ Z.of_nat k →
  code_of_status (Int z) =
  match d with
  | 3%N => UNEXPECTED_REDIRECT
  | 4%N => CLIENT_ERROR
  | _ => SERVER_ERROR
  end.
Proof.
  intros Hd Hz. unfold code_of_status.
  rewrite (first_char_toString_Int d k z Hd Hz).
  assert (d = 1 ∨ d = 2 ∨ d = 3 ∨ d = 4 ∨ d = 5 ∨ d = 6 ∨ d = 7 ∨ d = 8 ∨ d = 9)%N
    as Hcases by lia.
  by repeat destruct Hcases as [->|Hcases]; [..|subst d].
Qed.

(** A status that does not start with a digit is a server error. *)
Lemma code_of_status_no_digit (n : number) :
  match n with Int z => z < 0 | _ => True end →
  code_of_status n = SERVER_ERROR.
Proof.
  destruct n as [[|p|p]| |[]]; [lia|lia|done..].
Qed.

(** The first branch of the switch is taken at status 0 and nowhere else. *)
Lemma code_of_status_FAILED_CONNECTION (n : number) :
  code_of_status n = FAILED_CONNECTION ↔ n = Int 0.
Proof.
  split; [|by intros ->].
  destruct n as [[|p|p]| |[]]; [done| |done..].
  destruct (leading_digit_exists (N.pos p)) as (d & k & Hd & Hk); [lia|].
  rewrite (code_of_status_leading d k).
  - by repeat case_match.
  - done.
  - destruct Hk as [Hk1 Hk2].
    apply N2Z.inj_le in Hk1. apply N2Z.inj_lt in Hk2.
    rewrite N2Z.inj_mul, N2Z.inj_pow, nat_N_Z in Hk1, Hk2.
    rewrite N2Z.inj_add in Hk2. done.
Qed.

Example code_of_status_0 : code_of_status (Int 0) = FAILED_CONNECTION.
Proof. reflexivity. Qed.

Example code_of_status_302 : code_of_status (Int 302) = UNEXPECTED_REDIRECT.
Proof. reflexivity. Qed.

Example code_of_status_404 : code_of_status (Int 404) = CLIENT_ERROR.
Proof. reflexivity. Qed.

Example code_of_status_503 : code_of_status (Int 503) = SERVER_ERROR.
Proof. reflexivity. Qed.

(** C3, as stated, fails: on a connection failure (empty body, status 0)
    the error carries status 500 and not the transport status; and a
    structured payload with an empty message, received with status 0,
    gives the table defaults of its kind. *)
Lemma errFromRequest_status_counterexample :
  sample_unmarshal "" = None
  ∧ errFromRequest sample_unmarshal (mkXMLHttpRequest "" (Int 0))
    = Some (mkErr FAILED_CONNECTION "" (Int 500) false false None)
  ∧ Int 500 ≠ request_status (mkXMLHttpRequest "" (Int 0))
  ∧ errFromRequest sample_unmarshal
      (mkXMLHttpRequest (payload_text "account_exists" "") (Int 0))
    = Some (mkErr ACCOUNT_EXISTS "This account already exists." (Int 409)
              false false None).
Proof. split_and!; [by vm_compute..|discriminate|by vm_compute]. Qed.

(** C3, amended: [errFromRequest] produces one error for a failed
    exchange. When the body cannot be parsed, the kind follows the first
    character of the rendering of the status (0: FAILED_CONNECTION,
    3: UNEXPECTED_REDIRECT, 4: CLIENT_ERROR, anything else: SERVER_ERROR),
    the message is the raw body, and the status is the transport status
    when that is truthy (neither 0 nor NaN) and 500 otherwise, so that a
    FAILED_CONNECTION error always has status 500. When the body parses
    as a payload with a declared kind and a message, the error has that
    kind; its message is the payload's when non-empty, else the kind's
    table default or ""; its status is the transport status when truthy,
    else the kind's table default or 500. *)
Theorem errFromRequest_decodes (unmarshal : string → option json)
    (request : XMLHttpRequest) :
  let text := responseText request in
  let st := request_status request in
  (unmarshal text = None →
   ∃ e, errFromRequest unmarshal request = Some e
     ∧ code e = match first_char (toString st) with
                | Some "0"%char => FAILED_CONNECTION
                | Some "3"%char => UNEXPECTED_REDIRECT
                | Some "4"%char => CLIENT_ERROR
                | _ => SERVER_ERROR
                end
     ∧ message e = text
     ∧ status e = (if truthy st then st else Int 500)
     ∧ (code e = FAILED_CONNECTION → st = Int 0 ∧ status e = Int 500))
  ∧ (∀ fields kind msg,
       unmarshal text = Some (JObject fields) →
       fields !! "error" = Some (JString (ErrorCode_value kind)) →
       fields !! "message" = Some (JString msg) →
       ∃ e, errFromRequest unmarshal request = Some e
         ∧ code e = kind
         ∧ message e
           = (if truthy msg then msg
              else default "" (messages !! ErrorCode_value kind))
         ∧ status e
           = (if truthy st then st
              else default (Int 500) (statusCodes !! ErrorCode_value kind))).
Proof.
  intros text st. split.
  - intros Hfail. exists (errFromStatus request).
    assert (status (errFromStatus request) = if truthy st then st else Int 500)
      as Hstatus.
    { unfold errFromStatus. rewrite Err_new_status, statusCodes_lookup.
      simpl. fold st. destruct (truthy st); [done|].
      unfold code_of_status. by repeat case_match. }
    split_and!.
    + unfold errFromRequest. fold text. by rewrite Hfail.
    + done.
    + unfold errFromStatus. rewrite Err_new_message, messages_lookup.
      simpl. fold text. destruct (truthy text) eqn:Et; [done|].
      destruct text; [|done].
      unfold code_of_status. by repeat case_match.
    + done.
    + intros Hcode. apply code_of_status_FAILED_CONNECTION in Hcode.
      fold st in Hcode. split; [done|]. rewrite Hstatus. by rewrite Hcode.
  - intros fields kind msg Hparse Herror Hmsg.
    exists (Err_new kind (Some msg) (status_opts request)).
    split_and!.
    + unfold errFromRequest, payload_error, payload_message. fold text.
      by rewrite Hparse, Herror, Hmsg, ErrorCode_of_value_value.
    + done.
    + rewrite Err_new_message. simpl.
      destruct (truthy msg); [done|]. by destruct (messages !! _).
    + rewrite Err_new_status. simpl. fold st.
      destruct (truthy st); [done|]. by destruct (statusCodes !! _).
Qed.

Lemma errFromRequest_decodes_witness :
  sample_unmarshal "Bad Gateway" = None
  ∧ (∃ e, errFromRequest sample_unmarshal (mkXMLHttpRequest "Bad Gateway" (Int 502))
          = Some e
      ∧ code e = SERVER_ERROR ∧ message e = "Bad Gateway" ∧ status e = Int 502)
  ∧ (∃ e, errFromRequest sample_unmarshal
            (mkXMLHttpRequest (payload_text "session_expired" "x") (Int 401))
          = Some e
      ∧ code e = SESSION_EXPIRED ∧ message e = "x" ∧ status e = Int 401).
Proof.
  split_and!.
  - reflexivity.
  - destruct (proj1 (errFromRequest_decodes sample_unmarshal
                       (mkXMLHttpRequest "Bad Gateway" (Int 502))))
      as (e & He & Hc & Hm & Hs & _); [reflexivity|].
    exists e. by split_and!.
  - destruct (proj2 (errFromRequest_decodes sample_unmarshal
                       (mkXMLHttpRequest (payload_text "session_expired" "x") (Int 401)))
                (<[ "error" := JString "session_expired" ]>
                   (<[ "message" := JString "x" ]> ∅))
                SESSION_EXPIRED "x")
      as (e & He & Hc & Hm & Hs); [reflexivity..|].
    exists e. by split_and!.
Defined.

(** A body of [null] parses, cannot be destructured, and is decoded by
    the status like a body that does not parse. *)
Example errFromRequest_null :
  errFromRequest sample_unmarshal (mkXMLHttpRequest "null" (Int 302))
  = Some (mkErr UNEXPECTED_REDIRECT "null" (Int 302) false false None).
Proof. by vm_compute. Qed.

(** ** The call pipeline *)

Section CallProperties.

Context {value DeviceInfo RequestAuthentication Account Ext : Type}.

Implicit Types (client : Client value DeviceInfo RequestAuthentication Account Ext).
Implicit Types (s : Session value DeviceInfo RequestAuthentication Ext).
Implicit Types (w : World Ext) (progress : option ref) (p : ref).
Implicit Types (req : Request value DeviceInfo RequestAuthentication).
Implicit Types (res : Response value RequestAuthentication).
Implicit Types (params : option (list value)).

Ltac unfold_call :=
  unfold run, call, await_authenticate, await_send, await_verify, await,
    try_catch, set_progress_error, on_ext, mbind, mret, Async_bind,
    Async_ret, bind, resolve, throw.

(** Every call goes one of the ways of [call_run]. *)
Lemma call_run_complete client method params progress w :
  call_run client method params progress w
    (run client method params progress w).1
    (world (run client method params progress w).2)
    (log (run client method params progress w).2).
Proof.
  unfold_call.
  destruct (session (state client)) as [s|] eqn:Hs; simpl.
  - destruct (authenticate s _ (ext w)) as [[req1|e] x] eqn:Hauth; simpl.
    2: { by eapply run_authenticate_rejects. }
    pose proof (ready_authenticated client _ w s req1 x Hs Hauth) as Hready.
    destruct (send (sender client) req1 progress _) as [[res|e] w2] eqn:Hsend; simpl.
    2: { by eapply (run_send_rejects _ _ _ _ _ _ _ _ _ _ Hready). }
    destruct (res_error res) as [re|] eqn:Herror; simpl.
    { by eapply (run_error_response _ _ _ _ _ _ _ _ _ _ _ Hready). }
    destruct (verify s res (ext w2)) as [[[]|e] x'] eqn:Hverify; simpl.
    + by eapply (run_verified _ _ _ _ _ _ _ _ _ _ _ _ Hready).
    + by eapply (run_not_verified _ _ _ _ _ _ _ _ _ _ _ _ Hready).
    + by eapply (run_verify_rejects _ _ _ _ _ _ _ _ _ _ _ _ _ Hready).
  - pose proof (ready_no_session client (envelope client method params) w Hs) as Hready.
    destruct (send (sender client) _ progress w) as [[res|e] w2] eqn:Hsend; simpl.
    2: { by eapply (run_send_rejects _ _ _ _ _ _ _ _ _ _ Hready). }
    destruct (res_error res) as [re|] eqn:Herror; simpl.
    { by eapply (run_error_response _ _ _ _ _ _ _ _ _ _ _ Hready). }
    by eapply (run_no_session _ _ _ _ _ _ _ _ _ _ Hready).
Qed.

(** The ways of [call_run] are exactly what [call] does. *)
Lemma call_run_sound client method params progress w c w' events :
  call_run client method params progress w c w' events →
  run client method params progress w = (c, mkRun w' events).
Proof.
  intros Hrun. unfold_call.
  destruct Hrun as
    [s e x Hs Hauth
    |req1 w1 evs e w2 Hready Hsend
    |req1 w1 evs res w2 re Hready Hsend Herror
    |req1 w1 evs res w2 Hready Hsend Herror Hs
    |req1 w1 evs res w2 s e x Hready Hsend Herror Hs Hverify
    |req1 w1 evs res w2 s x Hready Hsend Herror Hs Hverify
    |req1 w1 evs res w2 s x Hready Hsend Herror Hs Hverify];
    try (destruct Hready as [Hs'|s' req1 x' Hs' Hauth]);
    rewrite ?Hs, ?Hs' in *; simplify_eq; simpl;
    rewrite ?Hs, ?Hauth; simpl; rewrite ?Hsend; simpl;
    rewrite ?Herror; simpl; rewrite ?Hverify; simpl; done.
Qed.

(** Splits a statement about one run into the ways the call can go. *)
Ltac by_call_run client method params progress w :=
  let Hrun := fresh "Hrun" in
  pose proof (call_run_complete client method params progress w) as Hrun;
  destruct (run client method params progress w) as [?outcome [?w ?events]];
  simpl in *;
  inversion Hrun; subst; clear Hrun;
  repeat match goal with
    | H : ready _ _ _ _ _ _ |- _ => inversion H; subst; clear H
    end;
  simplify_eq; simpl in *.

(** Membership in lists that are written out. *)
Ltac elem_cases :=
  repeat match goal with
    | H : _ ∈ _ :: _ |- _ => apply elem_of_cons in H as [H|H]; simplify_eq
    | H : _ ∈ [] |- _ => by apply elem_of_nil in H
    end.

Ltac solve_elem :=
  solve [intros; try (intros ?); elem_cases; try congruence;
         rewrite ?elem_of_cons; eauto 10].

Ltac find_earlier j :=
  solve [exists j; eexists; split; [lia|split; [reflexivity|eauto]]].

(** Checks [precedes] on a list that is written out. *)
Ltac solve_precedes :=
  let i := fresh "i" in
  let e := fresh "e" in
  let Hi := fresh "Hi" in
  let HQ := fresh "HQ" in
  intros i e Hi HQ;
  repeat (destruct i as [|i]; simpl in Hi;
          [injection Hi as <-;
           try (destruct HQ as (?&?&HQ));
           first [discriminate HQ
                 |simplify_eq;
                  first [find_earlier 0%nat|find_earlier 1%nat|find_earlier 2%nat
                        |find_earlier 3%nat|find_earlier 4%nat]]
          |]);
  by destruct i.

(** C1: without a session, [authenticate] is never invoked and the
    envelope goes out as built, with no authentication material. With
    a session, [authenticate] is invoked first, on the envelope as
    built; [send] is invoked only after [authenticate] has resolved,
    and on the envelope it left; [verify] is invoked for every response
    free of a structured error, and only after the transport has
    resolved to it; and a call that returns has had [verify] invoked
    on the response it returns, with [true] for an answer, as the last
    thing before it returned. *)
Theorem call_order client method params progress w :
  let req0 := envelope client method params in
  let outcome := (run client method params progress w).1 in
  let events := log (run client method params progress w).2 in
  match session (state client) with
  | None =>
      (∀ req, AuthenticateInvoked req ∉ events)
      ∧ head events = Some (SendInvoked req0 progress)
      ∧ req_auth req0 = None
      ∧ (∀ req pg, SendInvoked req pg ∈ events → req = req0)
  | Some s =>
      head events = Some (AuthenticateInvoked req0)
      ∧ precedes (λ e, ∃ req, e = AuthenticateSettled (Normal req))
                 (λ e, ∃ req pg, e = SendInvoked req pg) events
      ∧ (∀ req pg, SendInvoked req pg ∈ events →
                   AuthenticateSettled (Normal req) ∈ events)
      ∧ (∀ res, SendSettled (Normal res) ∈ events → res_error res = None →
                VerifyInvoked res ∈ events)
      ∧ (∀ res, precedes (λ e, e = SendSettled (Normal res) ∧ res_error res = None)
                         (λ e, e = VerifyInvoked res) events)
      ∧ (∀ res, outcome = Normal res →
                VerifyInvoked res ∈ events
                ∧ list.last events = Some (VerifySettled (Normal true)))
  end.
Proof.
  intros req0. subst req0. simpl.
  destruct (session (state client)) as [s|] eqn:Hs.
  - by_call_run client method params progress w.
    all: split_and!; [done|solve_precedes|solve_elem..|intros ?; solve_precedes|].
    all: intros ? [=]; subst; (split; [solve_elem|done]).
  - by_call_run client method params progress w.
    all: split_and!; [solve_elem|done|done|solve_elem].
Qed.

(** C2: with a session, when the transport has resolved to a response
    without a structured error and [verify] has resolved to [false],
    the call rejects with an [Err] whose code is [INVALID_RESPONSE]. *)
Theorem call_rejects_unverified client method params progress w s res :
  session (state client) = Some s →
  SendSettled (Normal res) ∈ log (run client method params progress w).2 →
  res_error res = None →
  VerifySettled (Normal false) ∈ log (run client method params progress w).2 →
  ∃ err, (run client method params progress w).1 = Throw (ThrownErr err)
         ∧ err = Err_new INVALID_RESPONSE None no_opts
         ∧ code err = INVALID_RESPONSE.
Proof.
  intros Hs Hsent Hnone Hverified.
  by_call_run client method params progress w; elem_cases.
  by eexists.
Qed.

(** C4: when the response of the transport carries a structured
    [error], the call raises the [Err] built from the declared code and
    message with no options, so that its status is the table default
    of the kind, or 500 for a kind without one; and the progress record
    supplied holds that error when the call raises it. *)
Theorem call_raises_response_error client method params progress w res re :
  SendSettled (Normal res) ∈ log (run client method params progress w).2 →
  res_error res = Some re →
  let err := Err_new (error_code re) (Some (error_message re)) no_opts in
  (run client method params progress w).1 = Throw (ThrownErr err)
  ∧ status err = default (Int 500) (statusCodes !! ErrorCode_value (error_code re))
  ∧ ∀ p, progress = Some p →
         error (store (world (run client method params progress w).2) p)
         = Some (ThrownErr err).
Proof.
  intros Hsent Hsome err.
  assert (status err = default (Int 500) (statusCodes !! ErrorCode_value (error_code re)))
    as Hstatus.
  { unfold err. rewrite Err_new_status. simpl. by destruct (statusCodes !! _). }
  split_and!; [|done|]; clear Hstatus; subst err.
  all: by_call_run client method params progress w; elem_cases; try congruence.
  all: try done.
  all: intros p ->; simpl; by rewrite fn_lookup_alter.
Qed.

(** C6: for a call that was given a progress record. When the transport
    rejects, when the response carries a structured error and when
    [verify] resolves to [false], the call fails and the [error] of the
    record is the error raised to the caller. When the call succeeds,
    the [error] of the record is still unset, given that it was unset
    at the start and that the transport does not write it: the record
    is then as the transport left it. Each case is stated twice: from
    what the collaborators do ([ready] brings the call to the transport,
    [send] and [verify] settle as given) and from what the run shows. *)
Theorem call_progress_error client method params p w :
  let r := run client method params (Some p) w in
  let req0 := envelope client method params in
  (∀ req1 w1 events e w2,
     ready client req0 w req1 w1 events →
     send (sender client) req1 (Some p) w1 = (Throw e, w2) →
     r.1 = Throw e ∧ error (store (world r.2) p) = Some e)
  ∧ (∀ req1 w1 events res w2 re,
     ready client req0 w req1 w1 events →
     send (sender client) req1 (Some p) w1 = (Normal res, w2) →
     res_error res = Some re →
     r.1 = Throw (ThrownErr (response_err re))
     ∧ error (store (world r.2) p) = Some (ThrownErr (response_err re)))
  ∧ (∀ req1 w1 events res w2 s x,
     ready client req0 w req1 w1 events →
     send (sender client) req1 (Some p) w1 = (Normal res, w2) →
     res_error res = None →
     session (state client) = Some s →
     verify s res (ext w2) = (Normal false, x) →
     r.1 = Throw (ThrownErr invalid_response)
     ∧ error (store (world r.2) p) = Some (ThrownErr invalid_response))
  ∧ (∀ req1 w1 events res w2,
     ready client req0 w req1 w1 events →
     send (sender client) req1 (Some p) w1 = (Normal res, w2) →
     res_error res = None →
     (session (state client) = None
      ∨ ∃ s x, session (state client) = Some s
               ∧ verify s res (ext w2) = (Normal true, x)) →
     r.1 = Normal res ∧ store (world r.2) p = store w2 p)
  ∧ (∀ e, SendSettled (Throw e) ∈ log r.2 →
        r.1 = Throw e ∧ error (store (world r.2) p) = Some e)
  ∧ (∀ res re, SendSettled (Normal res) ∈ log r.2 → res_error res = Some re →
        ∃ e, r.1 = Throw e ∧ error (store (world r.2) p) = Some e)
  ∧ (VerifySettled (Normal false) ∈ log r.2 →
        ∃ e, r.1 = Throw e ∧ error (store (world r.2) p) = Some e)
  ∧ (∀ res, r.1 = Normal res →
        keeps_errors (sender client) → error (store w p) = None →
        error (store (world r.2) p) = None).
Proof.
  intros r req0. subst r req0. split_and!.
  - intros req1 w1 events e w2 Hready Hsend.
    rewrite (call_run_sound _ _ _ _ _ _ _ _
               (run_send_rejects _ _ _ _ _ _ _ _ _ _ Hready Hsend)).
    simpl. by rewrite fn_lookup_alter.
  - intros req1 w1 events res w2 re Hready Hsend Hsome.
    rewrite (call_run_sound _ _ _ _ _ _ _ _
               (run_error_response _ _ _ _ _ _ _ _ _ _ _ Hready Hsend Hsome)).
    simpl. by rewrite fn_lookup_alter.
  - intros req1 w1 events res w2 s x Hready Hsend Hnone Hs Hverify.
    rewrite (call_run_sound _ _ _ _ _ _ _ _
               (run_not_verified _ _ _ _ _ _ _ _ _ _ _ _
                  Hready Hsend Hnone Hs Hverify)).
    simpl. by rewrite fn_lookup_alter.
  - intros req1 w1 events res w2 Hready Hsend Hnone [Hs|(s & x & Hs & Hverify)].
    + by rewrite (call_run_sound _ _ _ _ _ _ _ _
                    (run_no_session _ _ _ _ _ _ _ _ _ _ Hready Hsend Hnone Hs)).
    + by rewrite (call_run_sound _ _ _ _ _ _ _ _
                    (run_verified _ _ _ _ _ _ _ _ _ _ _ _
                       Hready Hsend Hnone Hs Hverify)).
  - intros e Hsent.
    by_call_run client method params (Some p) w; elem_cases.
    all: by rewrite fn_lookup_alter.
  - intros res re Hsent Hsome.
    by_call_run client method params (Some p) w; elem_cases; try congruence.
    all: eexists; split; [done|]; by rewrite fn_lookup_alter.
  - intros Hverified.
    by_call_run client method params (Some p) w; elem_cases.
    all: eexists; split; [done|]; by rewrite fn_lookup_alter.
  - intros res Hok Hkeeps Hunset.
    by_call_run client method params (Some p) w; try done.
    all: match goal with
         | H : send _ ?req ?pg ?w1 = (_, ?w2) |- _ =>
             pose proof (Hkeeps req pg w1 p) as Hk; rewrite H in Hk; simpl in Hk
         end.
    all: by rewrite Hk.
Qed.

(** C10: when [verify] resolves to [false] and a progress record was
    supplied, the call rejects with the [INVALID_RESPONSE] error and the
    [error] of the record is that error: a third writer of the terminal
    error, next to the transport failure and the structured error. *)
Theorem call_unverified_sets_progress client method params p w :
  let r := run client method params (Some p) w in
  VerifySettled (Normal false) ∈ log r.2 →
  r.1 = Throw (ThrownErr invalid_response)
  ∧ code invalid_response = INVALID_RESPONSE
  ∧ error (store (world r.2) p) = Some (ThrownErr invalid_response).
Proof.
  intros r Hverified. subst r.
  by_call_run client method params (Some p) w; elem_cases.
  all: split_and!; [done|done|]; by rewrite fn_lookup_alter.
Qed.

(** A rejection by the session itself, from [authenticate] or from
    [verify], is raised as it is and leaves the progress record alone:
    [verify] does not reach it, and [authenticate] runs before the
    transport does. *)
Lemma call_session_rejects client method params progress w e :
  AuthenticateSettled (Throw e) ∈ log (run client method params progress w).2
  ∨ VerifySettled (Throw e) ∈ log (run client method params progress w).2 →
  (run client method params progress w).1 = Throw e
  ∧ (AuthenticateSettled (Throw e) ∈ log (run client method params progress w).2 →
     store (world (run client method params progress w).2) = store w).
Proof.
  intros Hrejected.
  by_call_run client method params progress w;
    destruct Hrejected; elem_cases.
  all: split; [done|]; intros; elem_cases; done.
Qed.

(** X9: a call never retries and never skips ahead. Each of
    [authenticate], [send] and [verify] is invoked at most once; [send]
    is left out exactly when [authenticate] rejected; and without a
    session neither [authenticate] nor [verify] is invoked. *)
Theorem call_never_retries client method params progress w :
  let events := log (run client method params progress w).2 in
  (invocations is_authenticate events ≤ 1)%nat
  ∧ (invocations is_send events ≤ 1)%nat
  ∧ (invocations is_verify events ≤ 1)%nat
  ∧ (invocations is_send events = 0%nat ↔
     ∃ e, AuthenticateSettled (Throw e) ∈ events)
  ∧ (session (state client) = None →
     invocations is_authenticate events = 0%nat
     ∧ invocations is_verify events = 0%nat).
Proof.
  intros events. subst events.
  by_call_run client method params progress w.
  all: split_and!; try (cbv; lia); try congruence.
  all: split;
    [intros Hnone; first [by cbv in Hnone|eexists; solve_elem]
    |intros [? ?]; first [by cbv|by elem_cases]].
Qed.

(** X10: a call returns exactly when the transport resolved to a response
    without a structured error and, if there is a session, [verify]
    resolved to [true]; and what it returns is that response. *)
Theorem call_success_iff client method params progress w res :
  (run client method params progress w).1 = Normal res ↔
  SendSettled (Normal res) ∈ log (run client method params progress w).2
  ∧ res_error res = None
  ∧ (session (state client) = None
     ∨ VerifySettled (Normal true) ∈ log (run client method params progress w).2).
Proof.
  by_call_run client method params progress w.
  all: split; [intros [=]; subst|intros (Hsent & Herror & [Hs|Hv])].
  all: try (split_and!; [solve_elem|done|first [by left|right; solve_elem]]).
  all: elem_cases; congruence.
Qed.

(** X11: a call fails in five ways and no other: with what [authenticate]
    threw, with what [send] threw, with the error built from the
    structured error of the response, with what [verify] threw, or with
    the [INVALID_RESPONSE] error when [verify] resolved to [false]. *)
Theorem call_failure_iff client method params progress w e :
  (run client method params progress w).1 = Throw e ↔
  AuthenticateSettled (Throw e) ∈ log (run client method params progress w).2
  ∨ SendSettled (Throw e) ∈ log (run client method params progress w).2
  ∨ (∃ res re,
       SendSettled (Normal res) ∈ log (run client method params progress w).2
       ∧ res_error res = Some re ∧ e = ThrownErr (response_err re))
  ∨ VerifySettled (Throw e) ∈ log (run client method params progress w).2
  ∨ (VerifySettled (Normal false) ∈ log (run client method params progress w).2
     ∧ e = ThrownErr invalid_response).
Proof.
  by_call_run client method params progress w.
  all: split;
    [intros [=]; subst
    |intros [Hin|[Hin|[(?&?&Hin&?&?)|[Hin|[Hin ?]]]]]; elem_cases; congruence].
  - left. solve_elem.
  - right; left. solve_elem.
  - right; left. solve_elem.
  - do 2 right; left. eexists _, _. split_and!; [solve_elem|done..].
  - do 2 right; left. eexists _, _. split_and!; [solve_elem|done..].
  - do 3 right; left. solve_elem.
  - do 4 right. split; [solve_elem|done].
Qed.

(** X12: when the session itself rejects, from [authenticate] or from
    [verify], the call fails with what was thrown, but the pipeline does
    not record it: given a transport that leaves the [error] fields
    alone, every progress record, the one supplied included, has the
    [error] it had before the call. *)
Theorem call_session_rejection_unrecorded client method params progress w e :
  AuthenticateSettled (Throw e) ∈ log (run client method params progress w).2
  ∨ VerifySettled (Throw e) ∈ log (run client method params progress w).2 →
  keeps_errors (sender client) →
  (run client method params progress w).1 = Throw e
  ∧ ∀ p, error (store (world (run client method params progress w).2) p)
         = error (store w p).
Proof.
  intros Hrejected Hkeeps.
  by_call_run client method params progress w;
    destruct Hrejected; elem_cases.
  all: split; [done|]; intros p; simpl; try done.
  all: match goal with
       | H : send _ ?req ?pg ?w1 = (_, ?w2) |- _ =>
           pose proof (Hkeeps req pg w1 p) as Hk; rewrite H in Hk; simpl in Hk
       end.
  all: by rewrite Hk.
Qed.

(** X13: a call leaves every progress record but the one it was given
    as it was, given a transport that writes no record but the one it is
    given: a failure is never written to the record of another call. *)
Theorem call_writes_only_given client method params progress w q :
  writes_only_given (sender client) →
  progress ≠ Some q →
  store (world (run client method params progress w).2) q = store w q.
Proof.
  intros Hsend Hother.
  by_call_run client method params progress w.
  all: repeat match goal with
       | H : send _ ?req ?pg ?w1 = (_, ?w2) |- _ =>
           let Hk := fresh "Hk" in
           pose proof (Hsend req pg w1 q Hother) as Hk; rewrite H in Hk;
           simpl in Hk; revert H
       end; intros.
  all: unfold write_error; destruct progress as [p|]; simpl;
       rewrite ?fn_lookup_alter_ne by congruence; by rewrite ?Hk.
Qed.

(** What the attachment operations need of one call. *)
Lemma run_failure_recorded client method params p w :
  pipeline_failure (log (run client method params (Some p) w).2) →
  ∃ e, (run client method params (Some p) w).1 = Throw e
       ∧ error (store (world (run client method params (Some p) w).2) p) = Some e.
Proof.
  intros [[e Hin]|[(res & re & Hin & Herr)|Hin]].
  all: by_call_run client method params (Some p) w; elem_cases; try congruence.
  all: eexists; split; [done|]; by rewrite fn_lookup_alter.
Qed.

Lemma run_returned client method params progress w res :
  (run client method params progress w).1 = Normal res →
  SendSettled (Normal res) ∈ log (run client method params progress w).2
  ∧ (keeps_errors (sender client) →
     ∀ q, error (store (world (run client method params progress w).2) q)
          = error (store w q)).
Proof.
  intros Hok.
  by_call_run client method params progress w; try done.
  all: split; [solve_elem|]; intros Hkeeps q.
  all: match goal with
       | H : send _ ?req ?pg ?w1 = (_, ?w2) |- _ =>
           pose proof (Hkeeps req pg w1 q) as Hk; rewrite H in Hk; simpl in Hk
       end.
  all: by rewrite Hk.
Qed.

Lemma run_without_progress client method params w q :
  writes_only_given (sender client) →
  store (world (run client method params None w).2) q = store w q.
Proof.
  intros Hsend.
  by_call_run client method params (@None ref) w.
  all: repeat match goal with
       | H : send _ ?req ?pg ?w1 = (_, ?w2) |- _ =>
           let Hk := fresh "Hk" in
           pose proof (Hsend req pg w1 q ltac:(done)) as Hk; rewrite H in Hk;
           simpl in Hk; revert H
       end; intros; simpl; by rewrite ?Hk.
Qed.

Lemma run_failure_cases client method params progress w e :
  (run client method params progress w).1 = Throw e →
  pipeline_failure (log (run client method params progress w).2)
  ∨ (keeps_errors (sender client) →
     ∀ q, error (store (world (run client method params progress w).2) q)
          = error (store w q)).
Proof.
  intros Hfailed. unfold pipeline_failure.
  by_call_run client method params progress w; try done.
  all: first
    [left; left; eexists; solve_elem
    |left; right; left; eexists _, _; split; [solve_elem|done]
    |left; right; right; solve_elem
    |right; intros Hkeeps q; simpl; try done;
     match goal with
     | H : send _ ?req ?pg ?w1 = (_, ?w2) |- _ =>
         pose proof (Hkeeps req pg w1 q) as Hk; rewrite H in Hk; simpl in Hk
     end;
     by rewrite Hk].
Qed.

End CallProperties.

(** ** The pipeline on the sample collaborators *)

(** A session that does not verify the response: the call rejects. *)
Lemma call_rejects_unverified_sample :
  let client := sample_client (Some (sample_session false))
                  (sample_sender (Normal sample_response)) in
  let r := run client "getVault" None (Some 1%positive) sample_world in
  session (state client) = Some (sample_session false)
  ∧ SendSettled (Normal sample_response) ∈ log r.2
  ∧ res_error sample_response = None
  ∧ VerifySettled (Normal false) ∈ log r.2
  ∧ ∃ err, r.1 = Throw (ThrownErr err)
           ∧ err = Err_new INVALID_RESPONSE None no_opts
           ∧ code err = INVALID_RESPONSE.
Proof.
  intros client r.
  assert (SendSettled (Normal sample_response) ∈ log r.2) as Hsent
    by (vm_compute; repeat constructor).
  assert (VerifySettled (Normal false) ∈ log r.2) as Hverified
    by (vm_compute; repeat constructor).
  split_and!; [reflexivity|exact Hsent|reflexivity|exact Hverified|].
  exact (call_rejects_unverified client "getVault" None (Some 1%positive)
           sample_world (sample_session false) sample_response
           eq_refl Hsent eq_refl Hverified).
Defined.

(** A response with a structured error: the call raises it. *)
Lemma call_raises_response_error_sample :
  let client := sample_client None (sample_sender (Normal sample_error_response)) in
  let r := run client "getVault" None (Some 1%positive) sample_world in
  let err := Err_new NOT_FOUND (Some "no such vault") no_opts in
  SendSettled (Normal sample_error_response) ∈ log r.2
  ∧ r.1 = Throw (ThrownErr err)
  ∧ status err = Int 404
  ∧ error (store (world r.2) 1%positive) = Some (ThrownErr err).
Proof.
  intros client r err.
  assert (SendSettled (Normal sample_error_response) ∈ log r.2) as Hsent
    by (vm_compute; repeat constructor).
  destruct (call_raises_response_error client "getVault" None (Some 1%positive)
              sample_world sample_error_response
              (mkResponseError NOT_FOUND "no such vault") Hsent eq_refl)
    as (Hthrown & Hstatus & Hprogress).
  split_and!; [exact Hsent|exact Hthrown|exact Hstatus|exact (Hprogress _ eq_refl)].
Defined.

Lemma sample_sender_keeps_errors c : keeps_errors (sample_sender c).
Proof.
  intros req [q|] w p; simpl; [|done].
  destruct (decide (q = p)) as [->|Hne].
  - by rewrite fn_lookup_alter.
  - by rewrite fn_lookup_alter_ne.
Qed.

(** The four ways of a call that was given a progress record: the
    transport fails, the server refuses, the session does not verify the
    response, and the call goes through. *)
Lemma call_progress_error_sample :
  let offline := ThrownErr (Err_new FAILED_CONNECTION None no_opts) in
  let refused := ThrownErr (Err_new NOT_FOUND (Some "no such vault") no_opts) in
  let failing :=
    run (sample_client None (sample_sender (Throw offline)))
        "getAttachment" None (Some 1%positive) sample_world in
  let refusing :=
    run (sample_client (Some (sample_session true))
           (sample_sender (Normal sample_error_response)))
        "getAttachment" None (Some 1%positive) sample_world in
  let unverified :=
    run (sample_client (Some (sample_session false))
           (sample_sender (Normal sample_response)))
        "getAttachment" None (Some 1%positive) sample_world in
  let verified :=
    run (sample_client (Some (sample_session true))
           (sample_sender (Normal sample_response)))
        "getAttachment" None (Some 1%positive) sample_world in
  (failing.1 = Throw offline
   ∧ error (store (world failing.2) 1%positive) = Some offline)
  ∧ (refusing.1 = Throw refused
     ∧ error (store (world refusing.2) 1%positive) = Some refused)
  ∧ (unverified.1 = Throw (ThrownErr invalid_response)
     ∧ error (store (world unverified.2) 1%positive)
       = Some (ThrownErr invalid_response))
  ∧ (verified.1 = Normal sample_response
     ∧ store (world verified.2) 1%positive
       = mkRequestProgress (Int 10) (Int 10) None)
  ∧ error (store (world verified.2) 1%positive) = None.
Proof.
  intros offline refused failing refusing unverified verified.
  refine (conj _ (conj _ (conj _ (conj _ _)))).
  - destruct (call_progress_error
                (sample_client None (sample_sender (Throw offline)))
                "getAttachment" None 1%positive sample_world)
      as (Htransport & _).
    eapply Htransport; [apply ready_no_session; reflexivity|reflexivity].
  - destruct (call_progress_error
                (sample_client (Some (sample_session true))
                   (sample_sender (Normal sample_error_response)))
                "getAttachment" None 1%positive sample_world)
      as (_ & Hrefused & _).
    eapply (Hrefused _ _ _ _ _ (mkResponseError NOT_FOUND "no such vault"));
      [eapply ready_authenticated; reflexivity|reflexivity|reflexivity].
  - destruct (call_progress_error
                (sample_client (Some (sample_session false))
                   (sample_sender (Normal sample_response)))
                "getAttachment" None 1%positive sample_world)
      as (_ & _ & Hunverified & _).
    eapply Hunverified;
      [eapply ready_authenticated; reflexivity|reflexivity..].
  - destruct (call_progress_error
                (sample_client (Some (sample_session true))
                   (sample_sender (Normal sample_response)))
                "getAttachment" None 1%positive sample_world)
      as (_ & _ & _ & Hverified & _).
    edestruct Hverified as [Hreturned Hrecord];
      [eapply ready_authenticated; reflexivity|reflexivity|reflexivity
      |right; eexists _, _; split; reflexivity|].
    split; [exact Hreturned|exact (eq_trans Hrecord eq_refl)].
  - destruct (call_progress_error
                (sample_client (Some (sample_session true))
                   (sample_sender (Normal sample_response)))
                "getAttachment" None 1%positive sample_world)
      as (_ & _ & _ & _ & _ & _ & _ & Hkept).
    exact (Hkept sample_response eq_refl (sample_sender_keeps_errors _) eq_refl).
Defined.

(** A failed verification reaches the progress record. *)
Lemma call_unverified_sets_progress_sample :
  let client := sample_client (Some (sample_session false))
                  (sample_sender (Normal sample_response)) in
  let r := run client "getAttachment" None (Some 1%positive) sample_world in
  VerifySettled (Normal false) ∈ log r.2
  ∧ r.1 = Throw (ThrownErr invalid_response)
  ∧ error (store (world r.2) 1%positive) = Some (ThrownErr invalid_response).
Proof.
  intros client r.
  assert (VerifySettled (Normal false) ∈ log r.2) as Hverified
    by (vm_compute; repeat constructor).
  destruct (call_unverified_sets_progress client "getAttachment" None 1%positive
              sample_world Hverified) as (Hthrown & _ & Hprogress).
  by split_and!.
Defined.

(** ** Further properties of error.ts *)

Lemma ErrorCode_of_value_Some (s : string) (c : ErrorCode) :
  ErrorCode_of_value s = Some c → s = ErrorCode_value c.
Proof.
  unfold ErrorCode_of_value. intros Hfind.
  destruct (list_find _ _) as [[i c']|] eqn:Ef; [|done].
  simpl in Hfind. injection Hfind as <-.
  by apply list_find_Some in Ef as (_ & -> & _).
Qed.

Lemma ErrorCode_value_inj (c1 c2 : ErrorCode) :
  ErrorCode_value c1 = ErrorCode_value c2 → c1 = c2.
Proof.
  intros Heq. pose proof (ErrorCode_of_value_value c1) as H1.
  rewrite Heq, ErrorCode_of_value_value in H1. by injection H1.
Qed.

(** X1: the values of the enum are pairwise distinct, so a kind and its
    wire string determine each other: a string stands for a member
    exactly when it is that member's value. *)
Theorem ErrorCode_value_roundtrip :
  (∀ s c, ErrorCode_of_value s = Some c ↔ s = ErrorCode_value c)
  ∧ (∀ c1 c2, ErrorCode_value c1 = ErrorCode_value c2 → c1 = c2).
Proof.
  split; [|apply ErrorCode_value_inj].
  intros s c. split; [apply ErrorCode_of_value_Some|].
  intros ->. apply ErrorCode_of_value_value.
Qed.

Lemma given_Some_truthy {A} `{Truthy A} (a : option A) (x : A) :
  given a = Some x → a = Some x ∧ truthy x = true.
Proof.
  unfold given. destruct a as [y|]; [|done].
  destruct (truthy y) eqn:Et; [|done]. by intros [= <-].
Qed.

Lemma Err_new_status_truthy code msg opts :
  truthy (status (Err_new code msg opts)) = true.
Proof.
  rewrite Err_new_status, statusCodes_lookup.
  destruct (given (opts_status opts)) as [s|] eqn:Es.
  - by apply given_Some_truthy in Es as [_ ?].
  - by destruct code.
Qed.

(** X2: the status of a constructed error is never falsy (never 0, never
    NaN), whatever is passed; and unless a truthy status is passed it is
    an integer between 400 and 500. *)
Theorem Err_status_never_falsy code msg opts :
  truthy (status (Err_new code msg opts)) = true
  ∧ (given (opts_status opts) = None →
     ∃ z, status (Err_new code msg opts) = Int z ∧ (400 ≤ z ≤ 500)%Z).
Proof.
  split; [apply Err_new_status_truthy|].
  intros Hnone. rewrite Err_new_status, Hnone, statusCodes_lookup.
  destruct code; eexists; (split; [reflexivity|lia]).
Qed.

(** X3: building an error again from the fields of a constructed error
    gives the same error: the constructor is the identity on what it
    produces. *)
Theorem Err_rewrap (kind : ErrorCode) msg opts :
  let e := Err_new kind msg opts in
  Err_new (code e) (Some (message e))
          (mkErrOpts (Some (report e)) None (Some (status e)) (originalError e))
  = e.
Proof.
  intros e.
  pose proof (Err_new_message kind msg opts) as Hm.
  pose proof (Err_new_status_truthy kind msg opts) as Hs.
  assert (code e = kind ∧ originalError e = opts_error opts
          ∧ display e = report e) as (Hc & Ho & Hd) by done.
  fold e in Hm, Hs. clearbody e.
  rewrite Hc, Ho.
  set (opts' := mkErrOpts (Some (report e)) None (Some (status e)) (opts_error opts)).
  assert (message (Err_new kind (Some (message e)) opts') = message e) as Hmessage.
  { rewrite Err_new_message. unfold given.
    destruct (truthy (message e)) eqn:Et; [done|].
    assert (message e = "") as Hempty
      by (revert Et; by destruct (message e)).
    rewrite Hempty in Hm |- *.
    destruct (given msg) as [m|] eqn:Eg.
    { apply given_Some_truthy in Eg as [_ Htm]. subst m. discriminate Htm. }
    destruct (messages !! _) as [d|] eqn:Ed; [|done].
    apply messages_truthy in Ed. subst d. discriminate Ed. }
  assert (status (Err_new kind (Some (message e)) opts') = status e) as Hstatus.
  { rewrite Err_new_status. unfold given. cbn [opts_status opts'].
    by rewrite Hs. }
  assert (report (Err_new kind (Some (message e)) opts') = report e) as Hreport.
  { cbn. by destruct (report e). }
  change (Err_new kind (Some (message e)) opts')
    with (mkErr kind
            (message (Err_new kind (Some (message e)) opts'))
            (status (Err_new kind (Some (message e)) opts'))
            (report (Err_new kind (Some (message e)) opts'))
            (report (Err_new kind (Some (message e)) opts'))
            (opts_error opts)).
  rewrite Hmessage, Hstatus, Hreport.
  destruct e; simpl in *; by subst.
Qed.

Lemma code_of_status_pos (p : positive) :
  ∃ (d : N) (k : nat),
    (1 ≤ d ≤ 9)%N
    ∧ Z.of_N d * 10 ^ Z.of_nat k ≤ Z.pos p < (Z.of_N d + 1) * 10 ^ Z.of_nat k
    ∧ code_of_status (Int (Z.pos p)) =
      match d with
      | 3%N => UNEXPECTED_REDIRECT
      | 4%N => CLIENT_ERROR
      | _ => SERVER_ERROR
      end.
Proof.
  destruct (leading_digit_exists (N.pos p)) as (d & k & Hd & Hk1 & Hk2); [lia|].
  apply N2Z.inj_le in Hk1. apply N2Z.inj_lt in Hk2.
  rewrite N2Z.inj_mul, N2Z.inj_pow, nat_N_Z in Hk1, Hk2.
  rewrite N2Z.inj_add in Hk2.
  exists d, k. split; [done|]. split; [lia|].
  apply (code_of_status_leading d k); [done|lia].
Qed.

(** X4: on a three-digit status the fallback kind is the HTTP class:
    3xx is UNEXPECTED_REDIRECT, 4xx is CLIENT_ERROR, and 1xx, 2xx and
    5xx to 9xx are SERVER_ERROR. *)
Theorem code_of_status_http_class (z : Z) :
  (100 ≤ z ≤ 999)%Z →
  code_of_status (Int z) =
  if decide (300 ≤ z < 400)%Z then UNEXPECTED_REDIRECT
  else if decide (400 ≤ z < 500)%Z then CLIENT_ERROR
  else SERVER_ERROR.
Proof.
  intros Hz.
  pose proof (Z.div_mod z 100 ltac:(lia)) as Hdiv.
  pose proof (Z.mod_pos_bound z 100 ltac:(lia)) as Hmod.
  assert (1 ≤ z `div` 100 ≤ 9)%Z as Hq by lia.
  assert (1 ≤ Z.to_N (z `div` 100) ≤ 9)%N as Hd by lia.
  rewrite (code_of_status_leading (Z.to_N (z `div` 100)) 2 z Hd)
    by (rewrite Z2N.id by lia; change (10 ^ Z.of_nat 2) with 100; lia).
  assert (z `div` 100 = 1 ∨ z `div` 100 = 2 ∨ z `div` 100 = 3 ∨ z `div` 100 = 4
          ∨ z `div` 100 = 5 ∨ z `div` 100 = 6 ∨ z `div` 100 = 7
          ∨ z `div` 100 = 8 ∨ z `div` 100 = 9)%Z as Hcases by lia.
  repeat destruct Hcases as [Hc|Hcases]; try rename Hcases into Hc;
    rewrite Hc in *; simpl; repeat case_decide; (done || lia).
Qed.

Lemma code_of_status_http_class_404 :
  (100 ≤ 404 ≤ 999)%Z ∧ code_of_status (Int 404) = CLIENT_ERROR.
Proof. split; [lia|]. by rewrite code_of_status_http_class by lia. Defined.

(** X5: on the safe integers (magnitude below 2^53, where JavaScript
    prints the plain decimal) the fallback looks at the leading decimal
    digit only, however many digits there are: the kind is
    UNEXPECTED_REDIRECT exactly for the integers from 3·10^k up to
    4·10^k (3, 30 to 39, 300 to 399, ...) and CLIENT_ERROR exactly for
    those from 4·10^k up to 5·10^k. *)
Theorem code_of_status_leading_digit (z : Z) :
  (- 2 ^ 53 < z < 2 ^ 53)%Z →
  (code_of_status (Int z) = UNEXPECTED_REDIRECT ↔
     ∃ k : nat, (3 * 10 ^ Z.of_nat k ≤ z < 4 * 10 ^ Z.of_nat k)%Z)
  ∧ (code_of_status (Int z) = CLIENT_ERROR ↔
     ∃ k : nat, (4 * 10 ^ Z.of_nat k ≤ z < 5 * 10 ^ Z.of_nat k)%Z).
Proof.
  intros _. split; split.
  1,3: destruct z as [|p|p]; try done;
       destruct (code_of_status_pos p) as (d & k & Hd & Hk & ->);
       assert (d = 1 ∨ d = 2 ∨ d = 3 ∨ d = 4 ∨ d = 5 ∨ d = 6 ∨ d = 7 ∨ d = 8 ∨ d = 9)%N
         as Hcases by lia;
       repeat destruct Hcases as [->|Hcases]; try subst d; try done;
       intros _; by exists k.
  - intros (k & Hz). by rewrite (code_of_status_leading 3 k z).
  - intros (k & Hz). by rewrite (code_of_status_leading 4 k z).
Qed.

Lemma code_of_status_leading_digit_witness :
  (- 2 ^ 53 < 30 < 2 ^ 53)%Z
  ∧ code_of_status (Int 30) = UNEXPECTED_REDIRECT
  ∧ ∃ k : nat, (4 * 10 ^ Z.of_nat k ≤ 4000 < 5 * 10 ^ Z.of_nat k)%Z.
Proof.
  assert (- 2 ^ 53 < 30 < 2 ^ 53)%Z as H30 by lia.
  assert (- 2 ^ 53 < 4000 < 2 ^ 53)%Z as H4000 by lia.
  split; [lia|split].
  - apply (proj1 (code_of_status_leading_digit 30 H30)).
    exists 1%nat. lia.
  - by apply (proj2 (code_of_status_leading_digit 4000 H4000)).
Defined.

(** X6: for a body that does not parse, classifying the status of the
    error again gives the kind of the error, except on a connection
    failure: there the status has become 500, which reads as a server
    error. *)
Theorem errFromRequest_reclassifies (unmarshal : string → option json)
    (request : XMLHttpRequest) :
  unmarshal (responseText request) = None →
  ∃ e, errFromRequest unmarshal request = Some e
       ∧ (code_of_status (status e) = code e ↔ request_status request ≠ Int 0).
Proof.
  intros Hfail. exists (errFromStatus request). split.
  { unfold errFromRequest. by rewrite Hfail. }
  unfold errFromStatus. rewrite Err_new_status, statusCodes_lookup.
  cbn [code Err_new status_opts opts_status given].
  destruct (request_status request) as [z| |[]] eqn:Est; cbn [truthy truthy_number].
  - destruct (Z.eqb_spec z 0) as [->|Hne]; cbn [negb].
    + split; [by vm_compute|done].
    + split; [congruence|done].
  - split; [done|by vm_compute].
  - done.
  - done.
Qed.

Lemma errFromRequest_reclassifies_witness :
  sample_unmarshal "Not Found" = None
  ∧ ∃ e, errFromRequest sample_unmarshal (mkXMLHttpRequest "Not Found" (Int 404)) = Some e
         ∧ (code_of_status (status e) = code e ↔ Int 404 ≠ Int 0).
Proof.
  split; [reflexivity|].
  exact (errFromRequest_reclassifies sample_unmarshal
           (mkXMLHttpRequest "Not Found" (Int 404)) eq_refl).
Defined.

Lemma ErrorCode_value_no_colon (c : ErrorCode) :
  occurs ":" (ErrorCode_value c) = false.
Proof. by destruct c; vm_compute. Qed.

Lemma append_colon_inj (s1 s2 m1 m2 : string) :
  occurs ":" s1 = false → occurs ":" s2 = false →
  s1 +:+ ": " +:+ m1 = s2 +:+ ": " +:+ m2 →
  s1 = s2 ∧ m1 = m2.
Proof.
  revert s2. induction s1 as [|a s1 IH]; intros [|b s2] H1 H2 Heq; simpl in *.
  - by injection Heq.
  - injection Heq as <- _. by rewrite decide_True in H2.
  - injection Heq as -> _. by rewrite decide_True in H1.
  - injection Heq as -> Heq.
    destruct (decide (":"%char = b)); [done|].
    destruct (IH s2 H1 H2 Heq) as [-> ->]. done.
Qed.

(** X7: [toString] loses neither the kind nor the message: two errors
    with the same rendering have the same code and the same message. *)
Theorem Err_toString_inj (e1 e2 : Err) :
  Err_toString e1 = Err_toString e2 →
  code e1 = code e2 ∧ message e1 = message e2.
Proof.
  unfold Err_toString. intros Heq.
  apply append_colon_inj in Heq as [Hc Hm];
    [|apply ErrorCode_value_no_colon..].
  split; [|done].
  by apply ErrorCode_value_inj.
Qed.

(** X8: the decoder inverts the structured encoding of an error. When
    the body is the payload of a constructed error (its code as [error],
    its message as [message]) and the transport status is its status,
    the decoded error has the same code, message and status; it is
    neither reported nor displayed and wraps no cause. *)
Theorem errFromRequest_roundtrip (unmarshal : string → option json)
    (request : XMLHttpRequest) (kind : ErrorCode) msg opts fields :
  let e := Err_new kind msg opts in
  unmarshal (responseText request) = Some (JObject fields) →
  fields !! "error" = Some (JString (ErrorCode_value (code e))) →
  fields !! "message" = Some (JString (message e)) →
  request_status request = status e →
  ∃ e', errFromRequest unmarshal request = Some e'
        ∧ code e' = code e ∧ message e' = message e ∧ status e' = status e
        ∧ report e' = false ∧ display e' = false ∧ originalError e' = None.
Proof.
  intros e Hparse Herror Hmessage Hstatus.
  pose proof (Err_new_message kind msg opts) as Hm.
  pose proof (Err_new_status_truthy kind msg opts) as Hs.
  assert (code e = kind) as Hc by done.
  fold e in Hm, Hs. clearbody e. rewrite Hc in Herror.
  exists (Err_new kind (Some (message e)) (status_opts request)).
  split_and!; try done.
  - unfold errFromRequest, payload_error, payload_message.
    by rewrite Hparse, Herror, Hmessage, ErrorCode_of_value_value.
  - rewrite Err_new_message. unfold given.
    destruct (truthy (message e)) eqn:Et; [done|].
    assert (message e = "") as Hempty
      by (revert Et; by destruct (message e)).
    rewrite Hempty in Hm |- *.
    destruct (given msg) as [m|] eqn:Eg.
    { apply given_Some_truthy in Eg as [_ Htm]. subst m. discriminate Htm. }
    destruct (messages !! _) as [d|] eqn:Ed; [|done].
    apply messages_truthy in Ed. subst d. discriminate Ed.
  - rewrite Err_new_status. unfold given.
    cbn [opts_status status_opts]. by rewrite Hstatus, Hs.
Qed.

Lemma errFromRequest_roundtrip_witness :
  let e := Err_new SESSION_EXPIRED (Some "x") no_opts in
  let request := mkXMLHttpRequest (payload_text "session_expired" "x") (Int 401) in
  request_status request = status e
  ∧ ∃ e', errFromRequest sample_unmarshal request = Some e'
          ∧ code e' = code e ∧ message e' = message e ∧ status e' = status e
          ∧ report e' = false ∧ display e' = false ∧ originalError e' = None.
Proof.
  intros e request. split; [reflexivity|].
  exact (errFromRequest_roundtrip sample_unmarshal request SESSION_EXPIRED
           (Some "x") no_opts
           (<[ "error" := JString "session_expired" ]>
              (<[ "message" := JString "x" ]> ∅))
           eq_refl eq_refl eq_refl eq_refl).
Defined.

(** ** The attachment operations *)

Section AttachmentProperties.

Context {DeviceInfo RequestAuthentication Account Ext AttachmentData : Type}.

Variable serialize : Attachment AttachmentData → Ext → completion json * Ext.
Variable deserialize :
  Attachment AttachmentData → option json → Ext →
  (completion unit * Attachment AttachmentData) * Ext.
Variables initial_loaded initial_total : number.
Variable TypeError : Error.

Implicit Types (client : Client json DeviceInfo RequestAuthentication Account Ext).
Implicit Types (att : Attachment AttachmentData) (p q : ref) (w : World Ext).

Abbreviation create := (createAttachment serialize initial_loaded initial_total TypeError).
Abbreviation get := (getAttachment deserialize initial_loaded initial_total).

Lemma allocate_error p w :
  error (store (allocate initial_loaded initial_total p w) p) = None.
Proof. unfold allocate. simpl. by rewrite fn_lookup_insert. Qed.

(** X14: when the pipeline fails during [createAttachment] (the
    transport rejects, the response carries a structured error, or
    [verify] resolves to [false]), the operation rejects with the error
    of the call, the new upload progress record of the attachment holds
    that error, and the [id] of the attachment is not touched. *)
Theorem createAttachment_records_failure client att p w op :
  create client att p w = Some op →
  pipeline_failure (log op.2) →
  ∃ e, op.1.1 = Throw e
       ∧ uploadProgress op.1.2 = Some p
       ∧ error (store (world op.2) p) = Some e
       ∧ att_id op.1.2 = att_id att.
Proof.
  unfold createAttachment, on_ext. intros Hop Hfailure.
  destruct (serialize _ _) as [[raw|e] x]; simpl in Hop.
  2: { injection Hop as <-. simpl in Hfailure.
       destruct Hfailure as [[? Hin]|[(?&?&Hin&?)|Hin]]; by apply elem_of_nil in Hin. }
  match type of Hop with
  | context [run ?c ?m ?ps (Some p) ?w1] =>
      pose proof (run_failure_recorded c m ps p w1) as Hrec;
      destruct (run c m ps (Some p) w1) as [[res|e] r] eqn:Erun; simpl in *
  end.
  - assert (pipeline_failure (log r)) as Hlog.
    { repeat case_match; simplify_eq; done. }
    by destruct (Hrec Hlog) as (? & ? & _).
  - injection Hop as <-. simpl in *.
    destruct (Hrec Hfailure) as (e' & [= <-] & Herr). by exists e.
Qed.

(** X15: when [createAttachment] resolves, the [id] of the attachment is
    the [id] of the result of the response that the transport resolved
    to; the attachment refers to the new upload progress record, and,
    given a transport that leaves the [error] fields alone, that record
    shows no error. *)
Theorem createAttachment_success client att p w op :
  create client att p w = Some op →
  op.1.1 = Normal tt →
  keeps_errors (sender client) →
  ∃ res fields,
    SendSettled (Normal res) ∈ log op.2
    ∧ res_result res = Some (JObject fields)
    ∧ fields !! "id" = Some (JString (att_id op.1.2))
    ∧ uploadProgress op.1.2 = Some p
    ∧ att_vault op.1.2 = att_vault att
    ∧ error (store (world op.2) p) = None.
Proof.
  unfold createAttachment, on_ext. intros Hop Hok Hkeeps.
  destruct (serialize _ _) as [[raw|e] x]; simpl in Hop;
    [|by injection Hop as <-].
  match type of Hop with
  | context [run ?c ?m ?ps (Some p) ?w1] =>
      pose proof (run_returned c m ps (Some p) w1) as Hret;
      destruct (run c m ps (Some p) w1) as [[res|e] r] eqn:Erun; simpl in *
  end; [|by injection Hop as <-].
  destruct (Hret res eq_refl) as [Hsent Herr].
  destruct (res_result res) as [[| | | | |fields]|] eqn:Eres; simplify_eq.
  destruct (fields !! "id") as [[| | |id| |]|] eqn:Eid; simplify_eq.
  exists res, fields. simpl. split_and!; try done.
  rewrite (Herr Hkeeps p). simpl. by rewrite fn_lookup_insert.
Qed.

(** X16: a failure of [createAttachment] that is not a failure of the
    pipeline is not shown on the progress record. When the serialization
    or the session rejects, or when the call went through and the result
    has no [id] to read, the operation rejects, and the new upload
    progress record shows no error (given a transport that leaves the
    [error] fields alone). *)
Theorem createAttachment_unrecorded_failure client att p w op e :
  create client att p w = Some op →
  op.1.1 = Throw e →
  ¬ pipeline_failure (log op.2) →
  keeps_errors (sender client) →
  uploadProgress op.1.2 = Some p
  ∧ att_id op.1.2 = att_id att
  ∧ error (store (world op.2) p) = None.
Proof.
  unfold createAttachment, on_ext. intros Hop Hfailed Hnot Hkeeps.
  destruct (serialize _ _) as [[raw|e'] x]; simpl in Hop.
  2: { injection Hop as <-. simpl. split_and!; [done..|].
       by rewrite fn_lookup_insert. }
  match type of Hop with
  | context [run ?c ?m ?ps (Some p) ?w1] =>
      pose proof (run_returned c m ps (Some p) w1) as Hret;
      pose proof (run_failure_cases c m ps (Some p) w1) as Hcases;
      destruct (run c m ps (Some p) w1) as [[res|e'] r] eqn:Erun; simpl in *
  end.
  - destruct (Hret res eq_refl) as [_ Herr].
    assert (error (store (world r) p) = None) as Hnone.
    { rewrite (Herr Hkeeps p). simpl. by rewrite fn_lookup_insert. }
    repeat case_match; simplify_eq; done.
  - injection Hop as <-. simpl in *.
    destruct (Hcases e' eq_refl) as [Hpf|Herr]; [done|].
    split_and!; [done..|].
    rewrite (Herr Hkeeps p). simpl. by rewrite fn_lookup_insert.
Qed.

(** X18: when the pipeline fails during [getAttachment], the operation
    rejects with the error of the call without deserializing anything:
    the new download progress record of the attachment holds that error
    and the attachment is otherwise as it was. *)
Theorem getAttachment_records_failure client att p w :
  let op := get client att p w in
  pipeline_failure (log op.2) →
  ∃ e, op.1.1 = Throw e
       ∧ error (store (world op.2) p) = Some e
       ∧ op.1.2 = mkAttachment (att_id att) (att_vault att) (uploadProgress att)
                    (Some p) (att_data att).
Proof.
  unfold getAttachment. simpl.
  match goal with
  | |- context [run ?c ?m ?ps (Some p) ?w1] =>
      pose proof (run_failure_recorded c m ps p w1) as Hrec;
      destruct (run c m ps (Some p) w1) as [[res|e] r] eqn:Erun; simpl in *
  end.
  - destruct (deserialize _ _ _) as [done x]. simpl. intros Hfailure.
    by destruct (Hrec Hfailure) as (? & ? & _).
  - intros Hfailure. destruct (Hrec Hfailure) as (e' & [= <-] & Herr).
    by exists e.
Qed.

(** X19: a failure of [getAttachment] that is not a failure of the
    pipeline (the session rejects, or the result cannot be deserialized)
    is not shown on the progress record: the new download progress
    record shows no error, given a transport that leaves the [error]
    fields alone. *)
Theorem getAttachment_unrecorded_failure client att p w e :
  let op := get client att p w in
  op.1.1 = Throw e →
  ¬ pipeline_failure (log op.2) →
  keeps_errors (sender client) →
  error (store (world op.2) p) = None.
Proof.
  unfold getAttachment. simpl.
  match goal with
  | |- context [run ?c ?m ?ps (Some p) ?w1] =>
      pose proof (run_returned c m ps (Some p) w1) as Hret;
      pose proof (run_failure_cases c m ps (Some p) w1) as Hcases;
      destruct (run c m ps (Some p) w1) as [[res|e'] r] eqn:Erun; simpl in *
  end.
  - destruct (deserialize _ _ _) as [done x]. simpl. intros _ _ Hkeeps.
    destruct (Hret res eq_refl) as [_ Herr].
    rewrite (Herr Hkeeps p). simpl. by rewrite fn_lookup_insert.
  - intros [= <-] Hnot Hkeeps.
    destruct (Hcases e' eq_refl) as [Hpf|Herr]; [done|].
    rewrite (Herr Hkeeps p). simpl. by rewrite fn_lookup_insert.
Qed.

(** X20: [deleteAttachment] supplies no progress record: whether it
    resolves or rejects, the attachment is as it was and so is every
    progress record, the upload and download records of the attachment
    included, given a transport that writes no record but the one it is
    given. *)
Theorem deleteAttachment_leaves_progress client att w :
  writes_only_given (sender client) →
  (deleteAttachment client att w).1.2 = att
  ∧ ∀ q, store (world (deleteAttachment client att w).2) q = store w q.
Proof.
  intros Hsend. unfold deleteAttachment.
  match goal with
  | |- context [run ?c ?m ?ps None ?w1] =>
      pose proof (λ q, run_without_progress c m ps w1 q Hsend) as Hframe;
      destruct (run c m ps None w1) as [[res|e] r]; simpl in *
  end; by split.
Qed.

End AttachmentProperties.

(** ** The further properties on the sample collaborators *)

Lemma attachment_sender_keeps_errors c : keeps_errors (attachment_sender c).
Proof.
  intros req [q|] w p; simpl; [|done].
  destruct (decide (q = p)) as [->|Hne].
  - by rewrite fn_lookup_alter.
  - by rewrite fn_lookup_alter_ne.
Qed.

Lemma call_session_rejection_unrecorded_sample :
  let client := sample_client (Some sample_rejecting_session)
                  (sample_sender (Normal sample_response)) in
  let r := run client "getVault" None (Some 1%positive) sample_world in
  let e := ThrownErr (Err_new INVALID_SESSION None no_opts) in
  AuthenticateSettled (Throw e) ∈ log r.2
  ∧ r.1 = Throw e
  ∧ error (store (world r.2) 1%positive) = None.
Proof.
  intros client r e.
  assert (AuthenticateSettled (Throw e) ∈ log r.2) as Hin
    by (vm_compute; repeat constructor).
  destruct (call_session_rejection_unrecorded client "getVault" None
              (Some 1%positive) sample_world e (or_introl Hin)
              (sample_sender_keeps_errors _)) as [Hthrown Herr].
  split_and!; [exact Hin|exact Hthrown|exact (Herr 1%positive)].
Defined.

Lemma sample_sender_writes_only_given c : writes_only_given (sample_sender c).
Proof.
  intros req [p|] w q Hother; simpl; [|done].
  rewrite fn_lookup_alter_ne; [done|congruence].
Qed.

Lemma call_writes_only_given_sample :
  let client := sample_client None (sample_sender (Normal sample_error_response)) in
  let r := run client "getVault" None (Some 1%positive) sample_world in
  Some 1%positive ≠ Some 2%positive
  ∧ r.1 = Throw (ThrownErr (Err_new NOT_FOUND (Some "no such vault") no_opts))
  ∧ store (world r.2) 2%positive = store sample_world 2%positive.
Proof.
  intros client r.
  assert (Some 1%positive ≠ Some 2%positive) as Hother by discriminate.
  split_and!; [exact Hother|reflexivity|].
  exact (call_writes_only_given client "getVault" None (Some 1%positive)
           sample_world 2%positive (sample_sender_writes_only_given _) Hother).
Defined.

Lemma attachment_sender_writes_only_given c : writes_only_given (attachment_sender c).
Proof.
  intros req [p|] w q Hother; simpl; [|done].
  rewrite fn_lookup_alter_ne; [done|congruence].
Qed.

(** The server refuses the upload: the progress record shows why. *)
Lemma createAttachment_records_failure_sample :
  let client := attachment_client (Some (attachment_session true))
                  (attachment_sender (Normal attachment_error_response)) in
  let e := ThrownErr (Err_new STORAGE_QUOTA_EXCEEDED (Some "quota") no_opts) in
  ∃ op, createAttachment sample_serialize (Int 0) (Int 0) sample_TypeError
          client sample_attachment 1%positive sample_world = Some op
        ∧ pipeline_failure (log op.2)
        ∧ op.1.1 = Throw e
        ∧ uploadProgress op.1.2 = Some 1%positive
        ∧ error (store (world op.2) 1%positive) = Some e
        ∧ att_id op.1.2 = "".
Proof.
  intros client e.
  destruct (createAttachment sample_serialize (Int 0) (Int 0) sample_TypeError
              client sample_attachment 1%positive sample_world) as [op|] eqn:Eop;
    [|by vm_compute in Eop].
  assert (pipeline_failure (log op.2)) as Hfailure.
  { vm_compute in Eop. injection Eop as <-. right; left.
    exists attachment_error_response, (mkResponseError STORAGE_QUOTA_EXCEEDED "quota").
    split; [vm_compute; repeat constructor|reflexivity]. }
  destruct (createAttachment_records_failure sample_serialize (Int 0) (Int 0)
              sample_TypeError client sample_attachment 1%positive sample_world
              op Eop Hfailure) as (e' & Hthrown & Hup & Herr & Hid).
  assert (e' = e) as ->.
  { vm_compute in Eop. injection Eop as <-. by injection Hthrown. }
  exists op. by split_and!.
Defined.

(** The upload goes through: the attachment gets the id of the result. *)
Lemma createAttachment_success_sample :
  let client := attachment_client (Some (attachment_session true))
                  (attachment_sender (Normal attachment_response)) in
  ∃ op, createAttachment sample_serialize (Int 0) (Int 0) sample_TypeError
          client sample_attachment 1%positive sample_world = Some op
        ∧ op.1.1 = Normal tt
        ∧ att_id op.1.2 = "att-1"
        ∧ error (store (world op.2) 1%positive) = None.
Proof.
  intros client.
  destruct (createAttachment sample_serialize (Int 0) (Int 0) sample_TypeError
              client sample_attachment 1%positive sample_world) as [op|] eqn:Eop;
    [|by vm_compute in Eop].
  assert (op.1.1 = Normal tt) as Hok
    by (vm_compute in Eop; by injection Eop as <-).
  destruct (createAttachment_success sample_serialize (Int 0) (Int 0)
              sample_TypeError client sample_attachment 1%positive sample_world
              op Eop Hok (attachment_sender_keeps_errors _))
    as (res & fields & _ & _ & _ & _ & _ & Herr).
  exists op. split_and!; [done|done| |done].
  vm_compute in Eop. by injection Eop as <-.
Defined.

(** The response has no result: the operation rejects, the record shows
    no error. *)
Lemma createAttachment_unrecorded_failure_sample :
  let client := attachment_client (Some (attachment_session true))
                  (attachment_sender (Normal attachment_empty_response)) in
  ∃ op, createAttachment sample_serialize (Int 0) (Int 0) sample_TypeError
          client sample_attachment 1%positive sample_world = Some op
        ∧ op.1.1 = Throw (ThrownError sample_TypeError)
        ∧ ¬ pipeline_failure (log op.2)
        ∧ error (store (world op.2) 1%positive) = None.
Proof.
  intros client.
  destruct (createAttachment sample_serialize (Int 0) (Int 0) sample_TypeError
              client sample_attachment 1%positive sample_world) as [op|] eqn:Eop;
    [|by vm_compute in Eop].
  assert (op.1.1 = Throw (ThrownError sample_TypeError)) as Hthrown
    by (vm_compute in Eop; by injection Eop as <-).
  assert (¬ pipeline_failure (log op.2)) as Hnot.
  { vm_compute in Eop. injection Eop as <-. simpl.
    intros [[e Hin]|[(res & re & Hin & Herr)|Hin]];
      repeat (apply elem_of_cons in Hin as [Hin|Hin]; [simplify_eq|]);
      by apply elem_of_nil in Hin. }
  destruct (createAttachment_unrecorded_failure sample_serialize (Int 0) (Int 0)
              sample_TypeError client sample_attachment 1%positive sample_world
              op _ Eop Hthrown Hnot (attachment_sender_keeps_errors _))
    as (_ & _ & Herr).
  exists op. by split_and!.
Defined.

(** The transport fails during a download. *)
Lemma getAttachment_records_failure_sample :
  let client := attachment_client None
                  (attachment_sender
                     (Throw (ThrownErr (Err_new FAILED_CONNECTION None no_opts)))) in
  let op := getAttachment sample_deserialize (Int 0) (Int 0) client
              sample_attachment 1%positive sample_world in
  pipeline_failure (log op.2)
  ∧ ∃ e, op.1.1 = Throw e
         ∧ error (store (world op.2) 1%positive) = Some e
         ∧ downloadProgress op.1.2 = Some 1%positive.
Proof.
  intros client op.
  assert (pipeline_failure (log op.2)) as Hfailure.
  { left. eexists. vm_compute. repeat constructor. }
  destruct (getAttachment_records_failure sample_deserialize (Int 0) (Int 0)
              client sample_attachment 1%positive sample_world Hfailure)
    as (e & Hthrown & Herr & Hatt).
  split; [exact Hfailure|]. exists e. split_and!; [done..|].
  fold op in Hatt. by rewrite Hatt.
Defined.

(** The result cannot be deserialized: the record shows no error. *)
Lemma getAttachment_unrecorded_failure_sample :
  let client := attachment_client None
                  (attachment_sender (Normal attachment_empty_response)) in
  let op := getAttachment sample_deserialize (Int 0) (Int 0) client
              sample_attachment 1%positive sample_world in
  op.1.1 = Throw (ThrownErr (Err_new ENCODING_ERROR None no_opts))
  ∧ ¬ pipeline_failure (log op.2)
  ∧ error (store (world op.2) 1%positive) = None.
Proof.
  intros client op.
  assert (op.1.1 = Throw (ThrownErr (Err_new ENCODING_ERROR None no_opts)))
    as Hthrown by reflexivity.
  assert (¬ pipeline_failure (log op.2)) as Hnot.
  { intros [[e Hin]|[(res & re & Hin & Herr)|Hin]]; vm_compute in Hin;
      repeat (apply elem_of_cons in Hin as [Hin|Hin]; [simplify_eq|]);
      by apply elem_of_nil in Hin. }
  split_and!; [exact Hthrown|exact Hnot|].
  exact (getAttachment_unrecorded_failure sample_deserialize (Int 0) (Int 0)
           client sample_attachment 1%positive sample_world _ Hthrown Hnot
           (attachment_sender_keeps_errors _)).
Defined.

Lemma deleteAttachment_leaves_progress_sample :
  let client := attachment_client None
                  (attachment_sender (Normal attachment_error_response)) in
  let op := deleteAttachment client sample_attachment sample_world in
  op.1.2 = sample_attachment
  ∧ ∀ q, store (world op.2) q = store sample_world q.
Proof.
  intros client op.
  exact (deleteAttachment_leaves_progress client sample_attachment sample_world
           (attachment_sender_writes_only_given _)).
Defined.

(** Two errors that differ in their status only render alike. *)
Lemma Err_toString_inj_witness :
  let e1 := Err_new NOT_FOUND (Some "no such vault") no_opts in
  let e2 := Err_new NOT_FOUND (Some "no such vault") (with_status no_opts (Some (Int 410))) in
  Err_toString e1 = Err_toString e2
  ∧ code e1 = code e2 ∧ message e1 = message e2.
Proof.
  intros e1 e2.
  assert (Err_toString e1 = Err_toString e2) as Heq by reflexivity.
  split; [exact Heq|exact (Err_toString_inj e1 e2 Heq)].
Defined.
